(** * TGLInkara: the message URL-rewriting pipeline

    A shallow embedding of [processMessage], [extractUrls] (the message
    processor module) and [shortenUrl], [shortenUrlWithRetry]
    (urlShortener.js), with the properties of the pipeline stated and
    proved against it.

    JavaScript strings are sequences of UTF-16 code units; a code unit is
    modelled as an [N] and a string as a list of them.  The remote service
    behind [axios.get] is a parameter: a transition function on an abstract
    world state.  Every call to it is recorded in a trace, together with the
    decisions the pipeline logs on the console (skip, replaced, failed).
    The other console output and the one second pause between two attempts
    are not modelled.  The retry budget is a natural number.

    Also embedded: the in-memory store of userStorage.js (its two maps, with
    the dates read from the clock as parameters) and the handler of incoming
    messages of index.js, for which the queries of the database storage are
    parameters like the remote service. *)

From Stdlib Require Import String Ascii NArith ZArith Bool Arith Lia List.
Import ListNotations.

Local Open Scope list_scope.

(* ================================================================== *)
(** ** Strings *)

Definition char := N.
Definition jsstring := list char.

(** A string literal of the source, as code units. *)
Definition js (s : string) : jsstring :=
  map N_of_ascii (list_ascii_of_string s).

Definition char_eqb (a b : char) : bool := N.eqb a b.

Fixpoint str_eqb (a b : jsstring) : bool :=
  match a, b with
  | [], [] => true
  | x :: a', y :: b' => char_eqb x y && str_eqb a' b'
  | _, _ => false
  end.

(** [s.startsWith(p)] *)
Fixpoint startsWith (s p : jsstring) {struct p} : bool :=
  match p with
  | [] => true
  | x :: p' =>
      match s with
      | [] => false
      | y :: s' => char_eqb x y && startsWith s' p'
      end
  end.

(** [s.includes(p)] *)
Fixpoint includes (s p : jsstring) : bool :=
  startsWith s p ||
  match s with
  | [] => false
  | _ :: s' => includes s' p
  end.

(** ECMAScript [WhiteSpace] and [LineTerminator] code units: what [\s]
    matches and what [trim] strips. *)
Definition is_space (c : char) : bool :=
  (existsb (N.eqb c)
     [9; 10; 11; 12; 13; 32; 160; 5760; 8232; 8233; 8239; 8287; 12288; 65279]
   || ((8192 <=? c) && (c <=? 8202)))%N.

Fixpoint takeWhile (f : char -> bool) (s : jsstring) : jsstring :=
  match s with
  | [] => []
  | c :: s' => if f c then c :: takeWhile f s' else []
  end.

Fixpoint dropWhile (f : char -> bool) (s : jsstring) : jsstring :=
  match s with
  | [] => []
  | c :: s' => if f c then dropWhile f s' else s
  end.

(** [s.trim()] *)
Definition trim (s : jsstring) : jsstring :=
  rev (dropWhile is_space (rev (dropWhile is_space s))).

(** [arr.join(sep)] *)
Fixpoint join (sep : jsstring) (l : list jsstring) : jsstring :=
  match l with
  | [] => []
  | [x] => x
  | x :: rest => x ++ sep ++ join sep rest
  end.

(* ================================================================== *)
(** ** The URL regular expression

    [/(https?:\/\/C+|ftp:\/\/C+|www\.C+)/gi], where [C] is the negated class
    [[^\s<>{}|\\^`\[\]]] with the double quote (code unit 34) excluded too.

    A matcher takes the input from the current position and returns the
    input left after the match, or [None].  The pieces below are the pieces
    of the pattern. *)

Module Regex.

Definition matcher := jsstring -> option jsstring.

(** [Canonicalize] under the [i] flag without [u]: upper-casing of a code
    unit.  A code unit of 128 or more is never mapped to an ASCII one, and
    every character of the pattern is ASCII, so the identity outside
    [a..z] is exact for this pattern. *)
Definition canonicalize (c : char) : char :=
  (if (97 <=? c) && (c <=? 122) then c - 32 else c)%N.

Definition ci_eqb (p c : char) : bool :=
  N.eqb (canonicalize p) (canonicalize c).

(** A literal piece of the pattern, compared case-insensitively. *)
Fixpoint lit (p : jsstring) {struct p} : matcher :=
  fun s =>
    match p with
    | [] => Some s
    | x :: p' =>
        match s with
        | [] => None
        | y :: s' => if ci_eqb x y then lit p' s' else None
        end
    end.

(** The characters excluded by the class [C]. *)
Definition is_delim (c : char) : bool :=
  is_space c ||
  existsb (N.eqb c) (34%N :: js "<>{}|\^`[]").

Definition in_class (c : char) : bool := negb (is_delim c).

(** [C+] at the end of an alternative: greedy, at least one. *)
Definition class_plus : matcher :=
  fun s =>
    match takeWhile in_class s with
    | [] => None
    | _ :: _ => Some (dropWhile in_class s)
    end.

Definition seq (f g : matcher) : matcher :=
  fun s => match f s with Some r => g r | None => None end.

Definition alt (f g : matcher) : matcher :=
  fun s => match f s with Some r => Some r | None => g s end.

(** [f?] followed by [k]: greedy, and backtracks to the empty match when
    [k] fails after [f]. *)
Definition opt_then (f k : matcher) : matcher := alt (seq f k) k.

Definition urlRegex : matcher :=
  alt (seq (lit (js "http")) (opt_then (lit (js "s")) (seq (lit (js "://")) class_plus)))
 (alt (seq (lit (js "ftp://")) class_plus)
      (seq (lit (js "www.")) class_plus)).

(** The text matched at the head of [s], when there is a match there. *)
Definition match_at (s : jsstring) : option jsstring :=
  match urlRegex s with
  | Some rest => Some (firstn (length s - length rest) s)
  | None => None
  end.

(** [s.match(re)] with the [g] flag: all matches, leftmost first, each
    search resuming at the end of the previous match ([lastIndex]).
    [skip] counts the characters of the current match still to pass. *)
Fixpoint scan (skip : nat) (s : jsstring) : list jsstring :=
  match s with
  | [] => []
  | _ :: s' =>
      match skip with
      | S k => scan k s'
      | O =>
          match match_at s with
          | Some tok => tok :: scan (length tok - 1) s'
          | None => scan 0 s'
          end
      end
  end.

Definition match_all (s : jsstring) : list jsstring := scan 0 s.

End Regex.

(* ================================================================== *)
(** ** Values *)

(** What a caller can pass for [message].  Only truthiness and
    [typeof v === 'string'] are observed on a value that is not a string;
    a number is kept as an integer, with [0] the falsy one. *)
Inductive jsvalue :=
| JSUndefined
| JSNull
| JSBool (b : bool)
| JSNumber (n : N)
| JSString (s : jsstring)
| JSObject (id : nat).

Definition str_truthy (s : jsstring) : bool :=
  match s with [] => false | _ :: _ => true end.

Definition truthy (v : jsvalue) : bool :=
  match v with
  | JSUndefined | JSNull => false
  | JSBool b => b
  | JSNumber n => negb (N.eqb n 0)
  | JSString s => str_truthy s
  | JSObject _ => true
  end.

Definition typeof_string (v : jsvalue) : bool :=
  match v with JSString _ => true | _ => false end.

Definition as_string (v : jsvalue) : jsstring :=
  match v with JSString s => s | _ => [] end.

(* ================================================================== *)
(** ** Global replacement: [str.replace(new RegExp(escaped, 'g'), repl)] *)

(** The characters of [/[.*+?^${}()|[\]\\]/]. *)
Definition is_regex_special (c : char) : bool :=
  existsb (N.eqb c) (js ".*+?^${}()|[]\").

Definition backslash : char := 92%N.
Definition dollar : char := 36%N.

(** [url.replace(/[.*+?^${}()|[\]\\]/g, '\\$&')] *)
Definition escapeRegExp (url : jsstring) : jsstring :=
  flat_map (fun c => if is_regex_special c then [backslash; c] else [c]) url.

(** The text matched by a pattern made of escaped characters and ordinary
    characters only, which is what [new RegExp(escaped)] compiles to: a
    backslash makes the next character literal. *)
Fixpoint pattern_literal (p : jsstring) : jsstring :=
  match p with
  | [] => []
  | c :: r =>
      if N.eqb c backslash then
        match r with
        | [] => [c]
        | d :: r' => d :: pattern_literal r'
        end
      else c :: pattern_literal r
  end.

(** [GetSubstitution] for a pattern without capture groups: [$$], [$&],
    [$`] and [$'] are expanded in the replacement text, any other [$] is
    literal. *)
Fixpoint getSubstitution (matched pre post repl : jsstring) : jsstring :=
  match repl with
  | [] => []
  | c :: r =>
      if N.eqb c dollar then
        match r with
        | [] => [c]
        | d :: r' =>
            if N.eqb d dollar then dollar :: getSubstitution matched pre post r'
            else if N.eqb d 38 then matched ++ getSubstitution matched pre post r'
            else if N.eqb d 96 then pre ++ getSubstitution matched pre post r'
            else if N.eqb d 39 then post ++ getSubstitution matched pre post r'
            else c :: getSubstitution matched pre post r
        end
      else c :: getSubstitution matched pre post r
  end.

(** The replacement loop.  [pre] is the part of the subject before the
    current position, [skip] the characters of the current match still to
    pass.  An empty pattern matches at every position and at the end. *)
Fixpoint replace_go (pat repl pre : jsstring) (skip : nat) (s : jsstring)
  : jsstring :=
  match s with
  | [] =>
      match pat, skip with
      | [], O => getSubstitution [] pre [] repl
      | _, _ => []
      end
  | c :: s' =>
      match skip with
      | S k => replace_go pat repl (pre ++ [c]) k s'
      | O =>
          if startsWith s pat then
            getSubstitution pat pre (skipn (length pat) s) repl ++
            match pat with
            | [] => c :: replace_go pat repl (pre ++ [c]) 0 s'
            | _ :: _ => replace_go pat repl (pre ++ [c]) (length pat - 1) s'
            end
          else c :: replace_go pat repl (pre ++ [c]) 0 s'
      end
  end.

Definition replaceAll (pat s repl : jsstring) : jsstring :=
  replace_go pat repl [] 0 s.

(** [s.replace(new RegExp(escaped, 'g'), repl)] *)
Definition replaceRegExp (escaped s repl : jsstring) : jsstring :=
  replaceAll (pattern_literal escaped) s repl.

(* ================================================================== *)
(** ** The remote service, errors and the trace *)

(** The query of one request: [URLSearchParams({api, url})] and the
    optional [alias].  These are the entries the code hands to
    [URLSearchParams], before it serialises them (which percent-encodes
    them, and writes U+FFFD for a surrogate that is not part of a pair). *)
Record request := mkRequest {
  req_api : jsstring;
  req_url : jsstring;
  req_alias : option jsstring
}.

(** [response.data], with the fields the client reads (strings, per the
    contract of the service). *)
Record api_data := mkData {
  d_status : option jsstring;
  d_shortenedUrl : option jsstring;
  d_message : option jsstring
}.

(** The ways [axios.get] settles. *)
Inductive axios_result :=
| AxiosResponse (data : api_data)
| AxiosHttpError (message status statusText : jsstring)
| AxiosNoResponse (message : jsstring)
| AxiosSetupError (message : jsstring).

(** An error object, with the fields [shortenUrl] inspects. *)
Record js_error := mkError {
  err_message : jsstring;
  err_response : option (jsstring * jsstring);
  err_request : bool
}.

Definition Error (msg : jsstring) : js_error := mkError msg None false.

(** What a run leaves in the trace: a call of [axios.get], however it
    settles, and the three outcomes of an iteration that the rewriter
    logs. *)
Inductive event :=
| EvRequest (r : request)
| EvSkip (url : jsstring)
| EvReplaced (url short : jsstring)
| EvFailed (url : jsstring).

Definition is_request (e : event) : bool :=
  match e with EvRequest _ => true | _ => false end.

(** The remote calls of a trace. *)
Definition requests (t : list event) : list event := filter is_request t.

Inductive outcome (A : Type) :=
| Returned (a : A)
| Thrown (e : js_error).
Arguments Returned {A} a.
Arguments Thrown {A} e.

(** config.js *)
Definition MAX_RETRIES : nat := 3.

Definition opt_str_truthy (o : option jsstring) : bool :=
  match o with Some s => str_truthy s | None => false end.

Definition opt_str_is (o : option jsstring) (v : jsstring) : bool :=
  match o with Some s => str_eqb s v | None => false end.

(** The success test of [shortenUrl] on a settled request. *)
Definition is_success (r : axios_result) : bool :=
  match r with
  | AxiosResponse d =>
      opt_str_is (d_status d) (js "success") && opt_str_truthy (d_shortenedUrl d)
  | _ => false
  end.

Section Pipeline.

Variable World : Type.
Variable axios_get : World -> request -> axios_result * World.

Record state := mkState {
  world : World;
  trace : list event
}.

(** Computations that read and write the state and may throw. *)
Definition M (A : Type) : Type := state -> outcome A * state.

Definition ret {A} (a : A) : M A := fun st => (Returned a, st).

Definition throw {A} (e : js_error) : M A := fun st => (Thrown e, st).

Definition bind {A B} (m : M A) (k : A -> M B) : M B :=
  fun st =>
    match m st with
    | (Returned a, st') => k a st'
    | (Thrown e, st') => (Thrown e, st')
    end.

Definition try_catch {A} (m : M A) (h : js_error -> M A) : M A :=
  fun st =>
    match m st with
    | (Returned a, st') => (Returned a, st')
    | (Thrown e, st') => h e st'
    end.

Definition emit (e : event) : M unit :=
  fun st => (Returned tt, mkState (world st) (trace st ++ [e])).

Notation "x <- m ;; k" := (bind m (fun x => k))
  (at level 61, m at next level, right associativity).
Notation "m ;;; k" := (bind m (fun _ => k))
  (at level 61, right associativity).

(** [await axios.get(apiUrl, ...)] *)
Definition http_get (req : request) : M api_data :=
  fun st =>
    let (r, w') := axios_get (world st) req in
    let st' := mkState w' (trace st ++ [EvRequest req]) in
    match r with
    | AxiosResponse d => (Returned d, st')
    | AxiosHttpError m status statusText =>
        (Thrown (mkError m (Some (status, statusText)) true), st')
    | AxiosNoResponse m => (Thrown (mkError m None true), st')
    | AxiosSetupError m => (Thrown (mkError m None false), st')
    end.

(** The URL [shortenUrl] sends: the input, with [https://] in front when
    it starts with none of the three schemes. *)
Definition processedUrl (url : jsstring) : jsstring :=
  if negb (startsWith url (js "http://"))
     && negb (startsWith url (js "https://"))
     && negb (startsWith url (js "ftp://"))
  then js "https://" ++ url
  else url.

Definition shortenUrl (url apiKey alias : jsstring) : M jsstring :=
  try_catch
    (let params :=
       mkRequest apiKey (processedUrl url)
                 (if str_truthy alias then Some alias else None) in
     data <- http_get params ;;
     if opt_str_is (d_status data) (js "success")
        && opt_str_truthy (d_shortenedUrl data)
     then ret (match d_shortenedUrl data with Some u => u | None => [] end)
     else throw (Error (js "API Error: " ++
                        (if opt_str_truthy (d_message data)
                         then match d_message data with Some m => m | None => [] end
                         else js "Unknown error"))))
    (fun error =>
       match err_response error with
       | Some (status, statusText) =>
           throw (Error (js "API Error: " ++ status ++ js " - " ++ statusText))
       | None =>
           if err_request error
           then throw (Error (js "Network error: Unable to reach URL shortening service"))
           else throw (Error (js "Error: " ++ err_message error))
       end).

Fixpoint shortenUrlWithRetry (url apiKey alias : jsstring) (retries : nat)
  : M jsstring :=
  try_catch (shortenUrl url apiKey alias)
    (fun _ =>
       match retries with
       | S r => shortenUrlWithRetry url apiKey alias r
       | O => ret url
       end).

(** The body of the [for (const url of urls)] loop, on the running
    message. *)
Definition processUrl (apiKey processedMessage url : jsstring) : M jsstring :=
  try_catch
    (let cleanUrl := trim url in
     if includes cleanUrl (js "linkara.xyz") then
       emit (EvSkip cleanUrl) ;;; ret processedMessage
     else
       shortenedUrl <- shortenUrlWithRetry cleanUrl apiKey [] MAX_RETRIES ;;
       if negb (str_eqb shortenedUrl cleanUrl) then
         let escapedUrl := escapeRegExp cleanUrl in
         let processedMessage' :=
           replaceRegExp escapedUrl processedMessage shortenedUrl in
         emit (EvReplaced cleanUrl shortenedUrl) ;;; ret processedMessage'
       else
         emit (EvFailed cleanUrl) ;;; ret processedMessage)
    (fun _ => ret processedMessage).

Fixpoint forOf (apiKey : jsstring) (urls : list jsstring)
  (processedMessage : jsstring) : M jsstring :=
  match urls with
  | [] => ret processedMessage
  | url :: rest =>
      processedMessage' <- processUrl apiKey processedMessage url ;;
      forOf apiKey rest processedMessage'
  end.

Definition processMessage (message : jsvalue) (apiKey : jsstring) : M jsvalue :=
  if negb (truthy message) || negb (typeof_string message) then ret message
  else
    let urls := Regex.match_all (as_string message) in
    if Nat.eqb (length urls) 0 then ret message
    else
      processedMessage <- forOf apiKey urls (as_string message) ;;
      ret (JSString processedMessage).

End Pipeline.

Arguments mkState {World} _ _.
Arguments world {World} _.
Arguments trace {World} _.
Arguments ret {World A} _ _.
Arguments throw {World A} _ _.
Arguments bind {World A B} _ _ _.
Arguments try_catch {World A} _ _ _.
Arguments emit {World} _ _.
Arguments http_get {World} _ _ _.
Arguments shortenUrl {World} _ _ _ _ _.
Arguments shortenUrlWithRetry {World} _ _ _ _ _ _.
Arguments processUrl {World} _ _ _ _ _.
Arguments forOf {World} _ _ _ _ _.
Arguments processMessage {World} _ _ _ _.

Definition extractUrls (message : jsvalue) : list jsstring :=
  if negb (truthy message) || negb (typeof_string message) then []
  else Regex.match_all (as_string message).

(* ================================================================== *)
(** ** Vocabulary of the specification *)

Module RegexSpec.
Import Regex.

(** The maximal run of class characters at the head of the input. *)
Definition run (s : jsstring) : jsstring := takeWhile in_class s.

(** A token: a string the pattern matches whole. *)
Definition is_token (t : jsstring) : Prop := match_at t = Some t.

(** What a matcher consumes is made of class characters. *)
Definition consumes_class (f : matcher) : Prop :=
  forall s r, f s = Some r ->
    exists c, s = c ++ r /\ forallb in_class c = true.

(** A matcher sees the input only up to the first delimiter. *)
Definition local_to_run (f : matcher) : Prop :=
  forall s, f (run s) = option_map run (f s).

(** A match ends at a delimiter or at the end of the input. *)
Definition ends_run (f : matcher) : Prop :=
  forall s r, f s = Some r -> run r = [].

(** A character of the pattern that only class characters match. *)
Definition class_safe (x : char) : bool :=
  in_class (canonicalize x) && in_class (canonicalize x + 32)%N.

(** A matcher that succeeds on [x] succeeds on every extension of [x];
    a literal leaves the extension in the rest. *)
Definition extends_exact (f : matcher) : Prop :=
  forall x y r, f x = Some r -> f (x ++ y) = Some (r ++ y).

Definition extends (f : matcher) : Prop :=
  forall x y r, f x = Some r -> f (x ++ y) <> None.

(** The scan is at a position of [s] with [k] characters of a match of
    [A] still to pass: they are class characters and a delimiter, or the
    end, follows them. *)
Definition mid_token (A : jsstring) (k : nat) (s : jsstring) : Prop :=
  k = 0 \/
  (k < length A /\
   exists a b, s = a ++ b /\ length a = k /\
               forallb in_class a = true /\ run b = []).

End RegexSpec.


Section States.

Variable World : Type.
Variable axios_get : World -> request -> axios_result * World.

(** The state after one request. *)
Definition after_request (st : state World) (req : request) : state World :=
  mkState (snd (axios_get (world st) req)) (trace st ++ [EvRequest req]).

(** The state with more events in the trace. *)
Definition log (st : state World) (evs : list event) : state World :=
  mkState (world st) (trace st ++ evs).

End States.

Arguments after_request {World} _ _ _.
Arguments log {World} _ _.

(** The domain marker of the shortening service. *)
Definition service_marker : jsstring := js "linkara.xyz".

Definition one_of (l : jsstring) (c : char) : bool := existsb (N.eqb c) l.

(** The host of a URL token, read off its text: what follows the scheme
    (if there is one), up to the path, query or fragment, without user
    information and port. *)
Definition strip_scheme (t : jsstring) : jsstring :=
  match Regex.lit (js "https://") t with
  | Some r => r
  | None =>
      match Regex.lit (js "http://") t with
      | Some r => r
      | None =>
          match Regex.lit (js "ftp://") t with
          | Some r => r
          | None => t
          end
      end
  end.

Definition authority (t : jsstring) : jsstring :=
  takeWhile (fun c => negb (one_of (js "/?#") c)) (strip_scheme t).

Definition after_userinfo (a : jsstring) : jsstring :=
  rev (takeWhile (fun c => negb (one_of (js "@") c)) (rev a)).

Definition host_of (t : jsstring) : jsstring :=
  takeWhile (fun c => negb (one_of (js ":") c)) (after_userinfo (authority t)).

(** The host of the token is the domain of the service, whatever the case
    of its letters: a host name does not depend on case. *)
Definition host_is_service (t : jsstring) : bool :=
  match Regex.lit service_marker (host_of t) with
  | Some [] => true
  | _ => false
  end.

(** The host of the token is written exactly as the marker is, in lower
    case. *)
Definition host_written_as_marker (t : jsstring) : bool :=
  str_eqb (host_of t) service_marker.

(** Some position of [s] starts a URL. *)
Fixpoint has_url (s : jsstring) : bool :=
  match s with
  | [] => false
  | _ :: s' =>
      match Regex.match_at s with Some _ => true | None => has_url s' end
  end.

(** The request [shortenUrl] issues. *)
Definition request_of (url apiKey alias : jsstring) : request :=
  mkRequest apiKey (processedUrl url)
            (if str_truthy alias then Some alias else None).

(** What one iteration of the loop, for the token [url], adds to the
    trace: a skip; or the requests of the retry wrapper (all the same,
    between one and [MAX_RETRIES + 1] of them) and then the substitution or
    the report of failure. *)
Inductive token_block (apiKey url : jsstring) : list event -> Prop :=
| block_skip :
    includes (trim url) service_marker = true ->
    token_block apiKey url [EvSkip (trim url)]
| block_replaced (n : nat) (short : jsstring) :
    1 <= n <= MAX_RETRIES + 1 ->
    short <> trim url ->
    token_block apiKey url
      (repeat (EvRequest (request_of (trim url) apiKey [])) n
       ++ [EvReplaced (trim url) short])
| block_failed (n : nat) :
    1 <= n <= MAX_RETRIES + 1 ->
    token_block apiKey url
      (repeat (EvRequest (request_of (trim url) apiKey [])) n
       ++ [EvFailed (trim url)]).

(** The effect of an event on the running message. *)
Definition apply_event (m : jsstring) (e : event) : jsstring :=
  match e with
  | EvReplaced url short => replaceRegExp (escapeRegExp url) m short
  | _ => m
  end.

Definition replay (evs : list event) (m : jsstring) : jsstring :=
  fold_left apply_event evs m.

(** [s.indexOf(p)], with [None] for [-1]. *)
Fixpoint indexOf (s p : jsstring) : option nat :=
  if startsWith s p then Some 0
  else match s with
       | [] => None
       | _ :: s' => option_map S (indexOf s' p)
       end.

Definition no_dollar (s : jsstring) : bool :=
  forallb (fun c => negb (N.eqb c dollar)) s.

(** The service answers with success and the shortened address [short]. *)
Definition answers_with (short : jsstring) (r : axios_result) : bool :=
  match r with
  | AxiosResponse d =>
      opt_str_is (d_status d) (js "success")
      && opt_str_is (d_shortenedUrl d) short
  | _ => false
  end.

(** A service that never answers, and one that shortens everything to the
    same address. *)
Definition never_answers : unit -> request -> axios_result * unit :=
  fun w _ => (AxiosNoResponse (js "timeout of 10000ms exceeded"), w).

Definition always_answers (short : jsstring)
  : unit -> request -> axios_result * unit :=
  fun w _ => (AxiosResponse (mkData (Some (js "success")) (Some short) None), w).

Definition st0 : state unit := mkState tt [].

(** ** More vocabulary for the pipeline *)

(** [p] matched at the head of [t], ignoring case, with a class character
    after it. *)
Definition after_scheme (p t : jsstring) : bool :=
  match Regex.lit p t with
  | Some (c :: _) => Regex.in_class c
  | _ => false
  end.

(** The shape of an extracted URL. *)
Definition url_shape (t : jsstring) : bool :=
  forallb Regex.in_class t
  && (after_scheme (js "http://") t || after_scheme (js "https://") t
      || after_scheme (js "ftp://") t || after_scheme (js "www.") t).

(** Text made of gaps and URLs in turn. *)
Fixpoint weave (gaps urls : list jsstring) : jsstring :=
  match gaps, urls with
  | g :: gaps', u :: urls' => g ++ u ++ weave gaps' urls'
  | _, _ => []
  end.

(** The state after [n] requests [req] in a row. *)
Fixpoint after_requests {World : Type}
  (axios_get : World -> request -> axios_result * World)
  (n : nat) (st : state World) (req : request) : state World :=
  match n with
  | O => st
  | S n' => after_requests axios_get n' (after_request axios_get st req) req
  end.

(** The message of the error [shortenUrl] throws for a settled request
    that is not a success. *)
Definition failure_message (r : axios_result) : jsstring :=
  match r with
  | AxiosResponse d =>
      js "Error: API Error: " ++
      (if opt_str_truthy (d_message d)
       then match d_message d with Some m => m | None => [] end
       else js "Unknown error")
  | AxiosHttpError _ status statusText =>
      js "API Error: " ++ status ++ js " - " ++ statusText
  | AxiosNoResponse _ =>
      js "Network error: Unable to reach URL shortening service"
  | AxiosSetupError m => js "Error: " ++ m
  end.

(** A token the rewriter sends to the service. *)
Definition eligible (t : jsstring) : bool :=
  negb (includes t service_marker).

(** A pattern in which every character of [.*+?^${}()|[]\ ] is escaped
    by a backslash, and a backslash escapes such a character only. *)
Fixpoint escaped_only (p : jsstring) : bool :=
  match p with
  | [] => true
  | c :: r =>
      if N.eqb c backslash then
        match r with
        | [] => false
        | d :: r' => is_regex_special d && escaped_only r'
        end
      else negb (is_regex_special c) && escaped_only r
  end.


(* ================================================================== *)
(** ** userStorage.js: the in-memory store of keys and statistics *)

(** A JavaScript [Map] with numbers as keys: the entries in insertion
    order, one entry for a key. *)
Module JSMap.

Definition t (V : Type) : Type := list (N * V).

Definition empty {V} : t V := [].

Fixpoint get {V} (m : t V) (k : N) : option V :=
  match m with
  | [] => None
  | (k', v) :: m' => if N.eqb k' k then Some v else get m' k
  end.

Definition has {V} (m : t V) (k : N) : bool :=
  match get m k with Some _ => true | None => false end.

(** [m.set(k, v)]: the value is replaced where the key is, or the entry
    is added at the end. *)
Fixpoint set {V} (m : t V) (k : N) (v : V) : t V :=
  match m with
  | [] => [(k, v)]
  | (k', v') :: m' =>
      if N.eqb k' k then (k', v) :: m' else (k', v') :: set m' k v
  end.

(** [m.delete(k)]: the map without the key; the result of the call is
    [has m k]. *)
Definition delete {V} (m : t V) (k : N) : t V :=
  filter (fun e => negb (N.eqb (fst e) k)) m.

Definition size {V} (m : t V) : nat := length m.

Definition keys {V} (m : t V) : list N := map fst m.

End JSMap.

(** The double-precision number nearest to an integer, ties going to the
    even significand: the integer itself below [2^53]. *)
Definition round_to_double (z : Z) : Z :=
  let a := Z.abs z in
  if (a <? 2 ^ 53)%Z then z
  else
    let e := (Z.log2 a - 52)%Z in
    let q := (a / 2 ^ e)%Z in
    let rem := (a mod 2 ^ e)%Z in
    let half := (2 ^ (e - 1))%Z in
    let q' :=
      if (rem <? half)%Z then q
      else if (half <? rem)%Z then (q + 1)%Z
      else if Z.even q then q else (q + 1)%Z in
    (Z.sgn z * (q' * 2 ^ e))%Z.

(** [a + b] on numbers that hold integers: the sum, rounded. *)
Definition js_add (a b : Z) : Z := round_to_double (a + b).

Module UserStorage.

(** The statistics of a user; a [Date] is its time value, a count is an
    integer that a number holds. *)
Record stats := mkStats {
  totalUrlsShortened : Z;
  firstUse : N;
  lastUse : N
}.

(** The two maps of the module. *)
Record store := mkStore {
  userApiKeys : JSMap.t jsstring;
  userStats : JSMap.t stats
}.

Definition empty : store := mkStore JSMap.empty JSMap.empty.

(** [setUserApiKey(userId, apiKey)]; [d1] and [d2] are what the two
    [new Date()] give. *)
Definition setUserApiKey (d1 d2 : N) (userId : N) (apiKey : jsstring)
  (st : store) : outcome unit * store :=
  if N.eqb userId 0 || negb (str_truthy apiKey) then
    (Thrown (Error (js "User ID and API key are required")), st)
  else
    let keys' := JSMap.set (userApiKeys st) userId (trim apiKey) in
    let stats' :=
      if negb (JSMap.has (userStats st) userId)
      then JSMap.set (userStats st) userId (mkStats 0%Z d1 d2)
      else userStats st in
    (Returned tt, mkStore keys' stats').

(** [getUserApiKey(userId)], with [None] for [null]. *)
Definition getUserApiKey (userId : N) (st : store) : option jsstring :=
  match JSMap.get (userApiKeys st) userId with
  | Some k => if str_truthy k then Some k else None
  | None => None
  end.

Definition hasApiKey (userId : N) (st : store) : bool :=
  JSMap.has (userApiKeys st) userId.

Definition removeUserApiKey (userId : N) (st : store) : bool * store :=
  let removed := JSMap.has (userApiKeys st) userId in
  (removed, mkStore (JSMap.delete (userApiKeys st) userId) (userStats st)).

(** [updateUserStats(userId, urlCount)]; [d] is what [new Date()] gives.
    The sum is the sum of double-precision numbers. *)
Definition updateUserStats (d : N) (userId : N) (urlCount : Z) (st : store)
  : store :=
  match JSMap.get (userStats st) userId with
  | Some s =>
      mkStore (userApiKeys st)
        (JSMap.set (userStats st) userId
           (mkStats (js_add (totalUrlsShortened s) urlCount) (firstUse s) d))
  | None => st
  end.

Definition getUserStats (userId : N) (st : store) : option stats :=
  JSMap.get (userStats st) userId.

Definition getTotalUsers (st : store) : nat := JSMap.size (userApiKeys st).

Definition clearAllUserData (st : store) : store := empty.

Definition getAllUserIds (st : store) : list N := JSMap.keys (userApiKeys st).

(** The stores the module can be in: what the exported functions make of
    the empty store. *)
Inductive reachable : store -> Prop :=
| reach_empty : reachable empty
| reach_set d1 d2 u k st :
    reachable st -> reachable (snd (setUserApiKey d1 d2 u k st))
| reach_remove u st :
    reachable st -> reachable (snd (removeUserApiKey u st))
| reach_update d u n st :
    reachable st -> reachable (updateUserStats d u n st)
| reach_clear st :
    reachable st -> reachable (clearAllUserData st).

End UserStorage.

(** An integer that a double-precision number holds exactly, as do all
    the integers between it and [0]. *)
Definition safe_integer (z : Z) : bool := (Z.abs z <=? 2 ^ 53)%Z.

(** What the functions return for a user [v]. *)
Definition view (v : N) (st : UserStorage.store) : option jsstring * bool * option UserStorage.stats :=
  (UserStorage.getUserApiKey v st, UserStorage.hasApiKey v st,
   UserStorage.getUserStats v st).

Definition valid_args (userId : N) (apiKey : jsstring) : bool :=
  negb (N.eqb userId 0) && str_truthy apiKey.

(* ================================================================== *)
(** ** index.js: the handler of incoming messages *)

(** The pattern the handler tests a message with before it calls the
    rewriter: [/(https?:\/\/[^\s]+|ftp:\/\/[^\s]+|www\.[^\s]+)/gi]. *)
Module HandlerRegex.
Import Regex.

(** [[^\s]+] *)
Definition nonspace_plus : matcher :=
  fun s =>
    match takeWhile (fun c => negb (is_space c)) s with
    | [] => None
    | _ :: _ => Some (dropWhile (fun c => negb (is_space c)) s)
    end.

Definition urlRegex : matcher :=
  alt (seq (lit (js "http")) (opt_then (lit (js "s")) (seq (lit (js "://")) nonspace_plus)))
 (alt (seq (lit (js "ftp://")) nonspace_plus)
      (seq (lit (js "www.")) nonspace_plus)).

(** [urlRegex.test(s)] on the pattern just created: some position of [s]
    starts a match. *)
Fixpoint test (s : jsstring) : bool :=
  match urlRegex s with
  | Some _ => true
  | None =>
      match s with
      | [] => false
      | _ :: s' => test s'
      end
  end.

End HandlerRegex.

(** An incoming message: [msg.chat.id], [msg.from.id] and [msg.text],
    which a message without text does not have. *)
Record message := mkMessage {
  chat_id : N;
  from_id : N;
  text : option jsstring
}.

(** The cross mark that starts the replies of the bot. *)
Definition cross_mark : char := 10060%N.

Definition NEED_KEY_TEXT : jsstring :=
  cross_mark :: js " Please set your API key first using /api command."
  ++ 10%N :: js "Example: /api your-api-key".

Definition NONE_SHORTENED_TEXT : jsstring :=
  cross_mark :: js " No URLs could be shortened. Please check your message and API key.".

Definition ERROR_TEXT : jsstring :=
  cross_mark :: js " Error processing URLs. Please try again or check your API key.".

(** The key as [URLSearchParams] writes it: [null] becomes the text
    [null]. *)
Definition api_param (k : option jsstring) : jsstring :=
  match k with Some s => s | None => js "null" end.

(** [a !== b] for the value the rewriter returns and the text. *)
Definition differs (v : jsvalue) (t : jsstring) : bool :=
  match v with
  | JSString p => negb (str_eqb p t)
  | _ => true
  end.

(** [messageText && messageText.startsWith('/')] *)
Definition is_command (messageText : option jsstring) : bool :=
  match messageText with
  | Some t => str_truthy t && startsWith t (js "/")
  | None => false
  end.

Section Handler.

Variable World : Type.
Variable axios_get : World -> request -> axios_result * World.

(** [hasApiKey] and [getUserApiKey] of the database storage: queries on
    the world. *)
Variable db_hasApiKey : World -> N -> outcome bool * World.
Variable db_getUserApiKey : World -> N -> outcome (option jsstring) * World.

(** A query: it steps the world and leaves the trace alone. *)
Definition query {A} (q : World -> outcome A * World) : M World A :=
  fun st =>
    let (r, w') := q (world st) in
    (r, mkState w' (trace st)).

(** [bot.on('message', async (msg) => ...)]; the result is the list of
    calls of [bot.sendMessage], each with its chat and its text. *)
Definition onMessage (msg : message) : M World (list (N * jsstring)) :=
  let chatId := chat_id msg in
  let userId := from_id msg in
  let messageText := text msg in
  if is_command messageText then ret []
  else
    bind (query (fun w => db_hasApiKey w userId)) (fun userHasKey =>
    if negb userHasKey then ret [(chatId, NEED_KEY_TEXT)]
    else
      match messageText with
      | None => ret []
      | Some t =>
          if negb (str_truthy t) || negb (HandlerRegex.test t) then ret []
          else
            try_catch
              (bind (query (fun w => db_getUserApiKey w userId)) (fun apiKey =>
               bind (processMessage axios_get (JSString t) (api_param apiKey))
                 (fun processedMessage =>
               if differs processedMessage t
               then ret [(chatId, as_string processedMessage)]
               else ret [(chatId, NONE_SHORTENED_TEXT)])))
              (fun _ => ret [(chatId, ERROR_TEXT)])
      end).

End Handler.

Arguments query {World A} _ _.
Arguments onMessage {World} _ _ _ _ _.

(** [g] matches wherever [f] does. *)
Definition covers (f g : Regex.matcher) : Prop :=
  forall s, f s <> None -> g s <> None.

(** The reply for what the rewriter returned. *)
Definition reply_for (t p : jsstring) : jsstring :=
  if str_eqb p t then NONE_SHORTENED_TEXT else p.

(** ** More sample services and stores *)

(** A service that fails twice and then answers. *)
Definition third_time_lucky (short : jsstring)
  : nat -> request -> axios_result * nat :=
  fun w _ =>
    (if Nat.ltb w 2 then AxiosNoResponse (js "timeout")
     else AxiosResponse (mkData (Some (js "success")) (Some short) None),
     S w).

(** A service that is down for one address. *)
Definition down_for (url short : jsstring)
  : unit -> request -> axios_result * unit :=
  fun w req =>
    (if str_eqb (req_url req) url then AxiosNoResponse (js "timeout")
     else AxiosResponse (mkData (Some (js "success")) (Some short) None), w).

(** A store with two users, the first of them with some use. *)
Definition two_users : UserStorage.store :=
  UserStorage.updateUserStats 2000 7 3
    (snd (UserStorage.setUserApiKey 1002 1003 8 (js "key-8")
       (snd (UserStorage.setUserApiKey 1000 1001 7 (js "key-7")
          UserStorage.empty)))).

Definition always_answers_s1 : unit -> request -> axios_result * unit :=
  always_answers (js "https://linkara.xyz/s1").

(** A database that answers every query the same way. *)
Definition db_has (b : bool) : unit -> N -> outcome bool * unit :=
  fun w _ => (Returned b, w).

Definition db_key (k : option jsstring)
  : unit -> N -> outcome (option jsstring) * unit :=
  fun w _ => (Returned k, w).

(* ================================================================== *)
(** * Properties *)

(** ** Strings *)

Lemma str_eqb_eq (a b : jsstring) : str_eqb a b = true <-> a = b.
Proof.
  revert b; induction a as [|x a IH]; intros [|y b]; simpl;
    try (split; [discriminate | congruence]); [tauto|].
  unfold char_eqb. rewrite andb_true_iff, N.eqb_eq, IH.
  split; [intros [-> ->]; reflexivity | intros [= -> ->]; auto].
Qed.

Lemma str_eqb_refl (a : jsstring) : str_eqb a a = true.
Proof. apply str_eqb_eq; reflexivity. Qed.

Lemma str_eqb_neq (a b : jsstring) : str_eqb a b = false <-> a <> b.
Proof.
  rewrite <- str_eqb_eq. destruct (str_eqb a b); split; congruence.
Qed.

Lemma startsWith_app (p r : jsstring) : startsWith (p ++ r) p = true.
Proof.
  induction p as [|x p IH]; simpl; [reflexivity|].
  unfold char_eqb; rewrite N.eqb_refl; exact IH.
Qed.

Lemma startsWith_inv (s p : jsstring) :
  startsWith s p = true -> exists r, s = p ++ r.
Proof.
  revert s; induction p as [|x p IH]; intros s H; simpl in *.
  - exists s; reflexivity.
  - destruct s as [|y s]; [discriminate|].
    apply andb_true_iff in H as [Hc Hs]. apply N.eqb_eq in Hc. subst y.
    destruct (IH _ Hs) as [r ->]. exists r; reflexivity.
Qed.



Lemma takeWhile_dropWhile (f : char -> bool) (s : jsstring) :
  takeWhile f s ++ dropWhile f s = s.
Proof.
  induction s as [|c s IH]; simpl; [reflexivity|].
  destruct (f c); simpl; [rewrite IH|]; reflexivity.
Qed.

Lemma takeWhile_forallb (f : char -> bool) (s : jsstring) :
  forallb f (takeWhile f s) = true.
Proof.
  induction s as [|c s IH]; simpl; [reflexivity|].
  destruct (f c) eqn:E; simpl; [rewrite E; exact IH | reflexivity].
Qed.

Lemma takeWhile_app_all (f : char -> bool) (c r : jsstring) :
  forallb f c = true -> takeWhile f (c ++ r) = c ++ takeWhile f r.
Proof.
  induction c as [|x c IH]; simpl; intros H; [reflexivity|].
  apply andb_true_iff in H as [Hx Hc]. rewrite Hx, IH by assumption.
  reflexivity.
Qed.

Lemma takeWhile_all (f : char -> bool) (c : jsstring) :
  forallb f c = true -> takeWhile f c = c.
Proof.
  intros H. rewrite <- (app_nil_r c) at 1.
  rewrite takeWhile_app_all by assumption. simpl. apply app_nil_r.
Qed.

Lemma takeWhile_idem (f : char -> bool) (s : jsstring) :
  takeWhile f (takeWhile f s) = takeWhile f s.
Proof. apply takeWhile_all, takeWhile_forallb. Qed.

Lemma takeWhile_of_dropWhile (f : char -> bool) (s : jsstring) :
  takeWhile f (dropWhile f s) = [].
Proof.
  induction s as [|c s IH]; simpl; [reflexivity|].
  destruct (f c) eqn:E; simpl; [exact IH | rewrite E; reflexivity].
Qed.

Lemma dropWhile_of_takeWhile (f : char -> bool) (s : jsstring) :
  dropWhile f (takeWhile f s) = [].
Proof.
  induction s as [|c s IH]; simpl; [reflexivity|].
  destruct (f c) eqn:E; simpl; [rewrite E; exact IH | reflexivity].
Qed.

(** ** The regular expression *)

Module RegexFacts.
Import Regex RegexSpec.

Lemma ci_eqb_cases (x c : char) :
  ci_eqb x c = true -> c = canonicalize x \/ c = (canonicalize x + 32)%N.
Proof.
  unfold ci_eqb. intros H. apply N.eqb_eq in H. rewrite H.
  unfold canonicalize.
  destruct ((97 <=? c)%N && (c <=? 122)%N) eqn:E; [right | left; reflexivity].
  apply andb_true_iff in E as [E1 E2].
  apply N.leb_le in E1. lia.
Qed.

Lemma class_safe_ok (x c : char) :
  class_safe x = true -> ci_eqb x c = true -> in_class c = true.
Proof.
  unfold class_safe. intros H Hc. apply andb_true_iff in H as [H1 H2].
  destruct (ci_eqb_cases _ _ Hc) as [-> | ->]; assumption.
Qed.

Lemma lit_consumes (p : jsstring) :
  forallb class_safe p = true -> consumes_class (lit p).
Proof.
  induction p as [|x p IH]; intros Hp s r H; simpl in *.
  - injection H as <-. exists []; auto.
  - apply andb_true_iff in Hp as [Hx Hp].
    destruct s as [|y s]; [discriminate|].
    destruct (ci_eqb x y) eqn:E; [|discriminate].
    destruct (IH Hp _ _ H) as (c & -> & Hc).
    exists (y :: c); split; [reflexivity|].
    simpl. rewrite (class_safe_ok _ _ Hx E). exact Hc.
Qed.

Lemma lit_local (p : jsstring) :
  forallb class_safe p = true -> local_to_run (lit p).
Proof.
  induction p as [|x p IH]; intros Hp s; simpl in *; [reflexivity|].
  apply andb_true_iff in Hp as [Hx Hp].
  destruct s as [|y s]; [reflexivity|].
  unfold run; cbn [takeWhile].
  destruct (ci_eqb x y) eqn:E.
  - rewrite (class_safe_ok _ _ Hx E), E. apply (IH Hp).
  - destruct (in_class y); [rewrite E|]; reflexivity.
Qed.

Lemma class_plus_consumes : consumes_class class_plus.
Proof.
  intros s r H. unfold class_plus in H.
  destruct (takeWhile in_class s) eqn:E; [discriminate|].
  injection H as <-. exists (takeWhile in_class s); split.
  - symmetry; apply takeWhile_dropWhile.
  - apply takeWhile_forallb.
Qed.

Lemma class_plus_local : local_to_run class_plus.
Proof.
  intros s. unfold class_plus, run. rewrite takeWhile_idem.
  destruct (takeWhile in_class s) eqn:E; cbn [option_map]; [reflexivity|].
  rewrite <- E, dropWhile_of_takeWhile, takeWhile_of_dropWhile.
  reflexivity.
Qed.

Lemma class_plus_ends : ends_run class_plus.
Proof.
  intros s r H. unfold class_plus in H.
  destruct (takeWhile in_class s); [discriminate|].
  injection H as <-. apply takeWhile_of_dropWhile.
Qed.

Lemma seq_consumes (f g : matcher) :
  consumes_class f -> consumes_class g -> consumes_class (seq f g).
Proof.
  intros Hf Hg s r H. unfold seq in H.
  destruct (f s) as [m|] eqn:E; [|discriminate].
  destruct (Hf _ _ E) as (c1 & -> & H1), (Hg _ _ H) as (c2 & -> & H2).
  exists (c1 ++ c2); split; [apply app_assoc|].
  rewrite forallb_app, H1, H2; reflexivity.
Qed.

Lemma seq_local (f g : matcher) :
  local_to_run f -> local_to_run g -> local_to_run (seq f g).
Proof.
  intros Hf Hg s. unfold seq. rewrite Hf.
  destruct (f s); simpl; [apply Hg | reflexivity].
Qed.

Lemma seq_ends (f g : matcher) : ends_run g -> ends_run (seq f g).
Proof.
  intros Hg s r H. unfold seq in H.
  destruct (f s); [eapply Hg; eassumption | discriminate].
Qed.

Lemma alt_consumes (f g : matcher) :
  consumes_class f -> consumes_class g -> consumes_class (alt f g).
Proof.
  intros Hf Hg s r H. unfold alt in H.
  destruct (f s) eqn:E; [injection H as <-; eauto | eauto].
Qed.

Lemma alt_local (f g : matcher) :
  local_to_run f -> local_to_run g -> local_to_run (alt f g).
Proof.
  intros Hf Hg s. unfold alt. rewrite Hf.
  destruct (f s); simpl; [reflexivity | apply Hg].
Qed.

Lemma alt_ends (f g : matcher) :
  ends_run f -> ends_run g -> ends_run (alt f g).
Proof.
  intros Hf Hg s r H. unfold alt in H.
  destruct (f s) eqn:E; [injection H as <-; eauto | eauto].
Qed.

Create HintDb regex.
#[local] Hint Resolve lit_consumes lit_local class_plus_consumes
  class_plus_local class_plus_ends seq_consumes seq_local seq_ends
  alt_consumes alt_local alt_ends : regex.

Lemma urlRegex_consumes : consumes_class urlRegex.
Proof. unfold urlRegex, opt_then. auto 10 with regex. Qed.

Lemma urlRegex_local : local_to_run urlRegex.
Proof. unfold urlRegex, opt_then. auto 10 with regex. Qed.

Lemma urlRegex_ends : ends_run urlRegex.
Proof. unfold urlRegex, opt_then. auto 10 with regex. Qed.

Lemma firstn_consumed (c r : jsstring) :
  firstn (length (c ++ r) - length r) (c ++ r) = c.
Proof.
  rewrite length_app.
  replace (length c + length r - length r)%nat with (length c + 0)%nat by lia.
  rewrite firstn_app_2. simpl. apply app_nil_r.
Qed.

(** A match at the head of [s] is the whole run at the head of [s]. *)
Lemma match_at_is_run (s tok : jsstring) :
  match_at s = Some tok -> tok = run s.
Proof.
  unfold match_at. destruct (urlRegex s) as [r|] eqn:E; [|discriminate].
  intros [= <-].
  destruct (urlRegex_consumes _ _ E) as (c & -> & Hc).
  rewrite firstn_consumed. unfold run.
  rewrite takeWhile_app_all by assumption.
  fold (run r). rewrite (urlRegex_ends _ _ E). symmetry; apply app_nil_r.
Qed.

Lemma match_at_run (s : jsstring) : match_at (run s) = match_at s.
Proof.
  destruct (match_at s) as [tok|] eqn:Hs.
  - pose proof (match_at_is_run _ _ Hs) as ->.
    unfold match_at in *. rewrite urlRegex_local.
    destruct (urlRegex s) as [r|] eqn:E; [|discriminate]. simpl.
    rewrite (urlRegex_ends _ _ E). simpl.
    rewrite Nat.sub_0_r, firstn_all. reflexivity.
  - unfold match_at in *. rewrite urlRegex_local.
    destruct (urlRegex s); [discriminate | reflexivity].
Qed.

Lemma match_at_token (s tok : jsstring) :
  match_at s = Some tok -> is_token tok.
Proof.
  intros H. unfold is_token.
  rewrite (match_at_is_run _ _ H) at 1. rewrite match_at_run, H.
  reflexivity.
Qed.

Lemma token_in_class (t : jsstring) :
  is_token t -> forallb in_class t = true.
Proof.
  intros H. rewrite (match_at_is_run _ _ H). apply takeWhile_forallb.
Qed.

Lemma token_nonempty (t : jsstring) : is_token t -> t <> [].
Proof. intros H ->. discriminate H. Qed.

(** A token followed by a delimiter, or by nothing, is matched again as
    the same token. *)
Lemma token_ext (t r : jsstring) :
  is_token t -> run r = [] -> match_at (t ++ r) = Some t.
Proof.
  intros Ht Hr. rewrite <- match_at_run. unfold run.
  rewrite takeWhile_app_all by (apply token_in_class; exact Ht).
  fold (run r). rewrite Hr, app_nil_r. exact Ht.
Qed.

Lemma scan_skip (k : nat) (s : jsstring) : scan k s = scan 0 (skipn k s).
Proof.
  revert k; induction s as [|c s IH]; intros [|k]; try reflexivity.
  simpl scan at 1. rewrite IH. reflexivity.
Qed.

Lemma scan_token (x : char) (t r : jsstring) :
  match_at (x :: t ++ r) = Some (x :: t) ->
  scan 0 (x :: t ++ r) = (x :: t) :: scan 0 r.
Proof.
  intros H. simpl scan. rewrite H. f_equal.
  rewrite scan_skip.
  replace (length (x :: t) - 1) with (length t) by (simpl; lia).
  rewrite skipn_app, skipn_all, Nat.sub_diag. reflexivity.
Qed.

Lemma scan_no_match (c : char) (s : jsstring) :
  match_at (c :: s) = None -> scan 0 (c :: s) = scan 0 s.
Proof. intros H. simpl. rewrite H. reflexivity. Qed.

Lemma scan_tokens (s : jsstring) (k : nat) : Forall is_token (scan k s).
Proof.
  revert k; induction s as [|c s IH]; intros k; simpl; [constructor|].
  destruct k; [|apply IH].
  destruct (match_at (c :: s)) as [tok|] eqn:E; [|apply IH].
  constructor; [eapply match_at_token; eassumption | apply IH].
Qed.

Lemma match_all_join (l : list jsstring) :
  Forall is_token l -> match_all (join (js " ") l) = l.
Proof.
  unfold match_all.
  induction l as [|a l IH]; intros H; [reflexivity|].
  inversion H as [|? ? Ha Hl]; subst.
  destruct a as [|x a]; [elim (token_nonempty _ Ha); reflexivity|].
  destruct l as [|b l].
  - cbn [join]. pose proof (scan_token x a []) as E.
    rewrite app_nil_r in E. exact (E Ha).
  - change (join (js " ") ((x :: a) :: b :: l))
      with (x :: a ++ 32%N :: join (js " ") (b :: l)).
    rewrite scan_token.
    + rewrite scan_no_match by reflexivity. rewrite (IH Hl). reflexivity.
    + apply (token_ext (x :: a)); [exact Ha | reflexivity].
Qed.

(** *** Where a token occurs *)

Lemma lit_extends (p : jsstring) : extends_exact (lit p).
Proof.
  induction p as [|c p IH]; intros x y r H; simpl in *.
  - injection H as <-. reflexivity.
  - destruct x as [|d x]; [discriminate|]. simpl.
    destruct (ci_eqb c d); [apply IH; exact H | discriminate].
Qed.

Lemma class_plus_extends : extends class_plus.
Proof.
  intros x y r H. unfold class_plus in *.
  destruct x as [|c x]; [discriminate|]. simpl in *.
  destruct (in_class c); discriminate.
Qed.

Lemma seq_extends (f g : matcher) :
  extends_exact f -> extends g -> extends (seq f g).
Proof.
  intros Hf Hg x y r H. unfold seq in *.
  destruct (f x) as [m|] eqn:E; [|discriminate].
  rewrite (Hf _ y _ E). eapply Hg; eassumption.
Qed.

Lemma alt_extends (f g : matcher) :
  extends f -> extends g -> extends (alt f g).
Proof.
  intros Hf Hg x y r H. unfold alt in *.
  destruct (f x) as [m|] eqn:E.
  - specialize (Hf _ y _ E). destruct (f (x ++ y)); congruence.
  - specialize (Hg _ y _ H). destruct (f (x ++ y)); congruence.
Qed.

Lemma urlRegex_extends : extends urlRegex.
Proof.
  unfold urlRegex, opt_then.
  repeat first [apply alt_extends | apply seq_extends | apply lit_extends
               | apply class_plus_extends].
Qed.

Lemma token_prefix_matches (A s : jsstring) :
  is_token A -> startsWith s A = true -> match_at s <> None.
Proof.
  intros Ht Hs. apply startsWith_inv in Hs as [rest ->].
  unfold is_token, match_at in *.
  destruct (urlRegex A) as [r|] eqn:E; [|discriminate].
  pose proof (urlRegex_extends A rest r E) as H.
  destruct (urlRegex (A ++ rest)); congruence.
Qed.

Lemma mid_token_tail (A : jsstring) (k : nat) (c : char) (s : jsstring) :
  mid_token A (S k) (c :: s) -> mid_token A k s.
Proof.
  intros [H | (Hk & a & b & E & Hl & Ha & Hb)]; [discriminate|].
  right. split; [lia|].
  destruct a as [|x a]; [discriminate|].
  injection E as _ ->. injection Hl as Hl.
  simpl in Ha. apply andb_true_iff in Ha as [_ Ha].
  exists a, b. auto.
Qed.

Lemma forallb_skipn (f : char -> bool) (k : nat) (s : jsstring) :
  forallb f s = true -> forallb f (skipn k s) = true.
Proof.
  rewrite !forallb_forall. intros H x Hx.
  apply H. rewrite <- (firstn_skipn k s). apply in_or_app. auto.
Qed.

(** No token is in the middle of being passed where another one starts. *)
Lemma mid_token_start (A rest : jsstring) (k : nat) :
  is_token A -> mid_token A k (A ++ rest) -> k = 0.
Proof.
  intros Ht [H | (Hk & a & b & E & Hl & Ha & Hb)]; [exact H|].
  exfalso.
  assert (Eb : b = skipn k A ++ rest).
  { apply (f_equal (skipn k)) in E.
    rewrite skipn_app in E.
    replace (k - length A) with 0 in E by lia. simpl in E.
    rewrite E, <- Hl, skipn_app, skipn_all, Nat.sub_diag. reflexivity. }
  pose proof (forallb_skipn _ k _ (token_in_class _ Ht)) as Hc.
  assert (Hn : length (skipn k A) <> 0) by (rewrite length_skipn; lia).
  destruct (skipn k A) as [|x t]; [elim Hn; reflexivity|].
  simpl in Hc. apply andb_true_iff in Hc as [Hx _].
  rewrite Eb in Hb. unfold run in Hb. simpl in Hb. rewrite Hx in Hb.
  discriminate.
Qed.

(** After a match of [A] at the head, the rest of [A] is being passed. *)
Lemma mid_token_after_match (A : jsstring) (c : char) (s : jsstring) :
  is_token A -> match_at (c :: s) = Some A ->
  mid_token A (length A - 1) s.
Proof.
  intros Ht E. right.
  pose proof (token_nonempty _ Ht) as Hne.
  pose proof (token_in_class _ Ht) as Hc.
  pose proof (match_at_is_run _ _ E) as HA.
  pose proof (takeWhile_dropWhile in_class (c :: s)) as Hs.
  fold (run (c :: s)) in Hs. rewrite <- HA in Hs.
  destruct A as [|x A]; [congruence|].
  injection Hs as _ Hs.
  simpl in Hc. apply andb_true_iff in Hc as [_ Hc].
  split; [simpl; lia|].
  exists A, (dropWhile in_class (c :: s)).
  repeat split; auto.
  - simpl. lia.
  - apply takeWhile_of_dropWhile.
Qed.

Lemma indexOf_head (s p : jsstring) :
  startsWith s p = true -> indexOf s p = Some 0.
Proof. intros H. destruct s; simpl; rewrite H; reflexivity. Qed.

Lemma no_match_no_prefix (A s : jsstring) :
  is_token A -> match_at s = None -> startsWith s A = false.
Proof.
  intros Ht E. destruct (startsWith s A) eqn:H; [|reflexivity].
  elim (token_prefix_matches _ _ Ht H E).
Qed.

(** Scanning a text in which [A] is displayed, all of whose tokens are
    [A]: the displayed [A] is one of the tokens found, and if it is the
    first one, [A] does not occur before it. *)
Lemma scan_locate (A : jsstring) (Ht : is_token A) (p rest : jsstring) :
  forall k,
    mid_token A k (p ++ A ++ rest) ->
    Forall (eq A) (scan k (p ++ A ++ rest)) ->
    exists found,
      scan k (p ++ A ++ rest) = found ++ A :: scan 0 rest /\
      (found = [] -> k = 0 -> indexOf (p ++ A ++ rest) A = Some (length p)).
Proof.
  induction p as [|c p IH]; intros k Hk Hall.
  - simpl app in *. pose proof (mid_token_start _ _ _ Ht Hk) as ->.
    exists []. split.
    + destruct (match_at (A ++ rest)) as [t|] eqn:E.
      * destruct A as [|x A]; [elim (token_nonempty _ Ht); reflexivity|].
        assert (t = x :: A) as ->.
        { simpl in Hall. simpl in E. rewrite E in Hall.
          inversion Hall; auto. }
        apply scan_token. exact E.
      * elim (token_prefix_matches A (A ++ rest) Ht (startsWith_app _ _) E).
    + intros _ _. apply indexOf_head, startsWith_app.
  - change ((c :: p) ++ A ++ rest) with (c :: p ++ A ++ rest) in *.
    destruct k as [|k].
    + cbn [scan] in *.
      destruct (match_at (c :: p ++ A ++ rest)) as [t|] eqn:E.
      * inversion Hall as [|? ? Heq Hall']; subst.
        destruct (IH _ (mid_token_after_match _ _ _ Ht E) Hall')
          as (found & Hscan & _).
        exists (t :: found). split; [rewrite Hscan; reflexivity|].
        discriminate.
      * destruct (IH 0 (or_introl eq_refl) Hall) as (found & Hscan & Hidx).
        exists found. split; [exact Hscan|].
        intros Hf _. cbn [indexOf].
        rewrite (no_match_no_prefix _ _ Ht E), (Hidx Hf eq_refl).
        reflexivity.
    + cbn [scan] in *.
      destruct (IH k (mid_token_tail _ _ _ _ Hk) Hall) as (found & Hscan & _).
      exists found. split; [exact Hscan | discriminate].
Qed.

Lemma scan_empty_absent (A s : jsstring) :
  is_token A -> scan 0 s = [] -> indexOf s A = None.
Proof.
  intros Ht. induction s as [|c s IH]; intros H.
  - destruct A; [elim (token_nonempty _ Ht); reflexivity | reflexivity].
  - cbn [scan] in H.
    destruct (match_at (c :: s)) eqn:E; [discriminate|].
    cbn [indexOf]. rewrite (no_match_no_prefix _ _ Ht E), (IH H).
    reflexivity.
Qed.

(** A message [p A q A r] with extraction [A; A]: the token [A] occurs
    at the two places displayed and nowhere else. *)
Lemma twice_extracted (A p q r : jsstring) :
  match_all (p ++ A ++ q ++ A ++ r) = [A; A] ->
  indexOf (p ++ A ++ q ++ A ++ r) A = Some (length p) /\
  indexOf (q ++ A ++ r) A = Some (length q) /\
  indexOf r A = None.
Proof.
  unfold match_all. intros H.
  assert (Ht : is_token A).
  { pose proof (scan_tokens (p ++ A ++ q ++ A ++ r) 0) as F.
    rewrite H in F. inversion F; assumption. }
  destruct (scan_locate A Ht p (q ++ A ++ r) 0 (or_introl eq_refl))
    as (f1 & H1 & I1); [rewrite H; repeat constructor|].
  rewrite H in H1.
  assert (Hall : Forall (eq A) (scan 0 (q ++ A ++ r))).
  { assert (F : Forall (eq A) (f1 ++ A :: scan 0 (q ++ A ++ r)))
      by (rewrite <- H1; repeat constructor).
    apply Forall_app in F as [_ F]. inversion F; assumption. }
  destruct (scan_locate A Ht q r 0 (or_introl eq_refl) Hall)
    as (f2 & H2 & I2).
  rewrite H2 in H1.
  assert (Hlen : length [A; A] = length (f1 ++ A :: f2 ++ A :: scan 0 r))
    by (rewrite <- H1; reflexivity).
  rewrite length_app in Hlen. simpl in Hlen.
  rewrite length_app in Hlen. simpl in Hlen.
  destruct f1; [|simpl in Hlen; lia].
  destruct f2; [|simpl in Hlen; lia].
  destruct (scan 0 r) eqn:Er; [|simpl in Hlen; lia].
  repeat split; auto. apply scan_empty_absent; assumption.
Qed.

End RegexFacts.

Lemma extractUrls_string (s : jsstring) :
  extractUrls (JSString s) = Regex.match_all s.
Proof. destruct s; reflexivity. Qed.

(** C7. Extraction idempotence: extracting the URLs of a text, joining
    them with a single space and extracting again gives the same sequence
    of URLs. *)
Theorem extractUrls_join_idempotent (text : jsstring) :
  extractUrls (JSString (join (js " ") (extractUrls (JSString text))))
  = extractUrls (JSString text).
Proof.
  rewrite !extractUrls_string.
  apply RegexFacts.match_all_join, RegexFacts.scan_tokens.
Qed.

(** ** Tokens are left alone by [trim] *)

Lemma in_class_not_space (c : char) :
  Regex.in_class c = true -> is_space c = false.
Proof.
  unfold Regex.in_class, Regex.is_delim. intros H.
  apply negb_true_iff, orb_false_iff in H. apply H.
Qed.

Lemma dropWhile_head (f : char -> bool) (s : jsstring) :
  forallb (fun c => negb (f c)) s = true -> dropWhile f s = s.
Proof.
  destruct s as [|c s]; simpl; [reflexivity|].
  intros H. apply andb_true_iff in H as [H _].
  apply negb_true_iff in H. rewrite H. reflexivity.
Qed.

Lemma forallb_rev (f : char -> bool) (s : jsstring) :
  forallb f s = true -> forallb f (rev s) = true.
Proof.
  rewrite !forallb_forall. intros H c Hc. apply H, in_rev, Hc.
Qed.

Lemma trim_no_space (s : jsstring) :
  forallb (fun c => negb (is_space c)) s = true -> trim s = s.
Proof.
  intros H. unfold trim.
  rewrite (dropWhile_head _ s H).
  rewrite (dropWhile_head _ (rev s)) by (apply forallb_rev; exact H).
  apply rev_involutive.
Qed.

Lemma trim_token (t : jsstring) : RegexSpec.is_token t -> trim t = t.
Proof.
  intros H. apply trim_no_space.
  pose proof (RegexFacts.token_in_class _ H) as Hc.
  rewrite forallb_forall in *. intros c Hin.
  rewrite (in_class_not_space c (Hc c Hin)). reflexivity.
Qed.

(** ** The host of a token is part of its text *)











(** A host written as the marker is the host of the service. *)
Lemma host_written_is_service (t : jsstring) :
  host_written_as_marker t = true -> host_is_service t = true.
Proof.
  unfold host_written_as_marker, host_is_service. intros H.
  apply str_eqb_eq in H. rewrite H. reflexivity.
Qed.

(** ** Where extraction finds nothing *)

Lemma scan_no_url (s : jsstring) (k : nat) :
  has_url s = false -> Regex.scan k s = [].
Proof.
  revert k; induction s as [|c s IH]; intros k H; simpl in *; [reflexivity|].
  destruct (Regex.match_at (c :: s)); [discriminate|].
  destruct k; apply IH, H.
Qed.

Lemma scan_some_url (s : jsstring) :
  has_url s = true -> Regex.scan 0 s <> [].
Proof.
  induction s as [|c s IH]; intros H; simpl in *; [discriminate|].
  destruct (Regex.match_at (c :: s)); [discriminate | apply IH, H].
Qed.

(** C10. [extractUrls] is a function of its argument alone, defined on
    every value: it returns a sequence of tokens, and the sequence is empty
    exactly when the argument is not a string or no position of the string
    starts a URL (the empty string included). *)
Theorem extractUrls_total (message : jsvalue) :
  exists urls,
    extractUrls message = urls /\
    Forall RegexSpec.is_token urls /\
    (urls = [] <-> typeof_string message && has_url (as_string message) = false).
Proof.
  exists (extractUrls message). split; [reflexivity|].
  destruct (typeof_string message) eqn:Hty.
  2:{ unfold extractUrls. rewrite Hty, orb_true_r.
      split; [constructor | split; reflexivity]. }
  destruct message as [ | |b|n|s|o]; try discriminate.
  rewrite extractUrls_string. split; [apply RegexFacts.scan_tokens|].
  simpl. split.
  - intros H. destruct (has_url s) eqn:E; [|reflexivity].
    elim (scan_some_url _ E H).
  - apply scan_no_url.
Qed.

(** ** Global replacement *)

Lemma pattern_literal_escape (url : jsstring) :
  pattern_literal (escapeRegExp url) = url.
Proof.
  induction url as [|c url IH]; [reflexivity|].
  unfold escapeRegExp in *. cbn [flat_map].
  destruct (is_regex_special c) eqn:E.
  - cbn [app pattern_literal]. unfold backslash at 1.
    rewrite N.eqb_refl, IH. reflexivity.
  - cbn [app pattern_literal].
    destruct (N.eqb c backslash) eqn:Ec.
    + apply N.eqb_eq in Ec. subst c. discriminate E.
    + rewrite IH. reflexivity.
Qed.

Lemma replaceRegExp_escape (url s repl : jsstring) :
  replaceRegExp (escapeRegExp url) s repl = replaceAll url s repl.
Proof. unfold replaceRegExp. rewrite pattern_literal_escape. reflexivity. Qed.

Lemma getSubstitution_no_dollar (matched pre post repl : jsstring) :
  no_dollar repl = true -> getSubstitution matched pre post repl = repl.
Proof.
  induction repl as [|c r IH]; intros H; [reflexivity|].
  cbn [no_dollar forallb] in H. apply andb_true_iff in H as [Hc Hr].
  apply negb_true_iff in Hc. cbn [getSubstitution]. rewrite Hc.
  rewrite (IH Hr). reflexivity.
Qed.

Lemma replace_go_skip (pat repl pre a b : jsstring) :
  replace_go pat repl pre (length a) (a ++ b)
  = replace_go pat repl (pre ++ a) 0 b.
Proof.
  revert pre; induction a as [|x a IH]; intros pre.
  - simpl. rewrite app_nil_r. reflexivity.
  - simpl. rewrite IH, <- app_assoc. reflexivity.
Qed.

Lemma indexOf_cons (c : char) (s p : jsstring) (n : nat) :
  indexOf (c :: s) p = Some (S n) ->
  startsWith (c :: s) p = false /\ indexOf s p = Some n.
Proof.
  cbn [indexOf]. destruct (startsWith (c :: s) p); [discriminate|].
  destruct (indexOf s p); simpl; intros [= ->]. auto.
Qed.

Lemma indexOf_none_cons (c : char) (s p : jsstring) :
  indexOf (c :: s) p = None ->
  startsWith (c :: s) p = false /\ indexOf s p = None.
Proof.
  cbn [indexOf]. destruct (startsWith (c :: s) p); [discriminate|].
  destruct (indexOf s p); simpl; [discriminate | auto].
Qed.

(** Where the pattern does not occur, nothing is replaced. *)
Lemma replace_go_absent (pat repl pre s : jsstring) :
  indexOf s pat = None -> replace_go pat repl pre 0 s = s.
Proof.
  revert pre; induction s as [|c s IH]; intros pre H.
  - destruct pat; [discriminate | reflexivity].
  - apply indexOf_none_cons in H as [H1 H2].
    cbn [replace_go]. rewrite H1, (IH _ H2). reflexivity.
Qed.

(** The first occurrence is replaced and the search resumes after it. *)
Lemma replace_go_first (x : char) (pat repl pre p rest : jsstring) :
  no_dollar repl = true ->
  indexOf (p ++ (x :: pat) ++ rest) (x :: pat) = Some (length p) ->
  replace_go (x :: pat) repl pre 0 (p ++ (x :: pat) ++ rest)
  = p ++ repl ++ replace_go (x :: pat) repl (pre ++ p ++ x :: pat) 0 rest.
Proof.
  intros Hd. revert pre; induction p as [|c p IH]; intros pre H.
  - change ([] ++ (x :: pat) ++ rest) with (x :: pat ++ rest).
    cbn [replace_go].
    change (x :: pat ++ rest) with ((x :: pat) ++ rest) at 1.
    rewrite startsWith_app, (getSubstitution_no_dollar _ _ _ _ Hd).
    replace (length (x :: pat) - 1) with (length pat) by (simpl; lia).
    rewrite replace_go_skip, <- app_assoc. reflexivity.
  - change ((c :: p) ++ (x :: pat) ++ rest)
      with (c :: p ++ (x :: pat) ++ rest) in *.
    apply indexOf_cons in H as [H1 H2].
    cbn [replace_go]. rewrite H1, (IH _ H2), <- !app_assoc. reflexivity.
Qed.

(** A pattern that occurs exactly twice: both occurrences are replaced by
    the same text. *)
Lemma replaceAll_twice (A repl p q r : jsstring) :
  A <> [] ->
  no_dollar repl = true ->
  indexOf (p ++ A ++ q ++ A ++ r) A = Some (length p) ->
  indexOf (q ++ A ++ r) A = Some (length q) ->
  indexOf r A = None ->
  replaceAll A (p ++ A ++ q ++ A ++ r) repl = p ++ repl ++ q ++ repl ++ r.
Proof.
  intros HA Hd H1 H2 H3. destruct A as [|x A]; [congruence|].
  unfold replaceAll.
  rewrite (replace_go_first x A repl [] p (q ++ (x :: A) ++ r) Hd H1).
  rewrite (replace_go_first x A repl _ q r Hd H2).
  rewrite (replace_go_absent _ _ _ _ H3). reflexivity.
Qed.

Lemma replaceAll_absent (A s repl : jsstring) :
  indexOf s A = None -> replaceAll A s repl = s.
Proof. apply replace_go_absent. Qed.

(** ** The client and the retry wrapper *)

Section PipelineFacts.

Variable World : Type.
Variable axios_get : World -> request -> axios_result * World.

(** One call of the client is one request, whatever its outcome. *)
Lemma shortenUrl_one_request (url apiKey alias : jsstring) (st : state World) :
  snd (shortenUrl axios_get url apiKey alias st)
  = after_request axios_get st (request_of url apiKey alias).
Proof.
  unfold shortenUrl, try_catch, bind, http_get, after_request, request_of.
  destruct (axios_get (world st) _) as [r w'] eqn:E. simpl.
  destruct r as [d| m s t | m | m]; simpl; try reflexivity.
  destruct (opt_str_is (d_status d) (js "success")
            && opt_str_truthy (d_shortenedUrl d)); reflexivity.
Qed.

Lemma shortenUrl_failure (url apiKey alias : jsstring) (st : state World) :
  is_success (fst (axios_get (world st) (request_of url apiKey alias))) = false ->
  exists e, fst (shortenUrl axios_get url apiKey alias st) = Thrown e.
Proof.
  unfold shortenUrl, try_catch, bind, http_get, request_of.
  destruct (axios_get (world st) _) as [r w'] eqn:E. simpl.
  destruct r as [d| m s t | m | m]; simpl; intros H; eauto.
  rewrite H. simpl. eauto.
Qed.

Lemma shortenUrl_success (url apiKey alias : jsstring) (st : state World)
      (d : api_data) (short : jsstring) :
  fst (axios_get (world st) (request_of url apiKey alias)) = AxiosResponse d ->
  d_status d = Some (js "success") ->
  d_shortenedUrl d = Some short ->
  str_truthy short = true ->
  fst (shortenUrl axios_get url apiKey alias st) = Returned short.
Proof.
  unfold shortenUrl, try_catch, bind, http_get, request_of.
  destruct (axios_get (world st) _) as [r w'] eqn:E. simpl.
  intros -> Hs Hu Ht. simpl. rewrite Hs, Hu. simpl. rewrite Ht.
  reflexivity.
Qed.

Lemma retry_unfold (url apiKey alias : jsstring) (retries : nat) (st : state World) :
  shortenUrlWithRetry axios_get url apiKey alias retries st
  = match fst (shortenUrl axios_get url apiKey alias st) with
    | Returned a =>
        (Returned a, after_request axios_get st (request_of url apiKey alias))
    | Thrown _ =>
        match retries with
        | S r => shortenUrlWithRetry axios_get url apiKey alias r
                   (after_request axios_get st (request_of url apiKey alias))
        | O => (Returned url, after_request axios_get st (request_of url apiKey alias))
        end
    end.
Proof.
  rewrite <- shortenUrl_one_request.
  destruct retries; simpl; unfold try_catch;
    destruct (shortenUrl axios_get url apiKey alias st) as [[a|e] st']; reflexivity.
Qed.

Lemma trace_after_request (st : state World) (req : request) :
  trace (after_request axios_get st req) = trace st ++ [EvRequest req].
Proof. reflexivity. Qed.

(** C2. Graceful fallback: when every call of the client fails,
    [shortenUrlWithRetry] returns the original [url] as a value (it does
    not throw), after exactly [retries + 1] requests; with the default
    budget, [MAX_RETRIES + 1]. *)
Theorem shortenUrlWithRetry_fallback
    (url apiKey alias : jsstring) (retries : nat) (st : state World)
    (Hfail : forall w req, is_success (fst (axios_get w req)) = false) :
  fst (shortenUrlWithRetry axios_get url apiKey alias retries st) = Returned url /\
  trace (snd (shortenUrlWithRetry axios_get url apiKey alias retries st))
  = trace st ++ repeat (EvRequest (request_of url apiKey alias)) (retries + 1) /\
  length (requests (repeat (EvRequest (request_of url apiKey alias)) (retries + 1)))
  = retries + 1.
Proof.
  split; [|split].
  - revert st; induction retries as [|r IH]; intros st; rewrite retry_unfold;
      destruct (shortenUrl_failure url apiKey alias st (Hfail _ _)) as [e ->];
      [reflexivity | apply IH].
  - revert st; induction retries as [|r IH]; intros st; rewrite retry_unfold;
      destruct (shortenUrl_failure url apiKey alias st (Hfail _ _)) as [e ->].
    + reflexivity.
    + rewrite IH, trace_after_request, <- app_assoc. reflexivity.
  - generalize (retries + 1). intros n. induction n; simpl; congruence.
Qed.

(** The wrapper settles with a value, after between one and
    [retries + 1] identical requests. *)
Lemma retry_returns (url apiKey alias : jsstring) (retries : nat)
      (st : state World) :
  exists v n,
    1 <= n <= retries + 1 /\
    fst (shortenUrlWithRetry axios_get url apiKey alias retries st) = Returned v /\
    trace (snd (shortenUrlWithRetry axios_get url apiKey alias retries st))
    = trace st ++ repeat (EvRequest (request_of url apiKey alias)) n.
Proof.
  revert st; induction retries as [|r IH]; intros st; rewrite retry_unfold;
    destruct (fst (shortenUrl axios_get url apiKey alias st)) as [a|e].
  - exists a, 1. repeat split; lia.
  - exists url, 1. repeat split; lia.
  - exists a, 1. repeat split; lia.
  - destruct (IH (after_request axios_get st (request_of url apiKey alias)))
      as (v & n & Hn & Hv & Ht).
    exists v, (S n). repeat split; [lia | lia | exact Hv |].
    rewrite Ht, trace_after_request, <- app_assoc. reflexivity.
Qed.

(** A first attempt that succeeds is the only one. *)
Lemma retry_first_success (url apiKey alias : jsstring) (retries : nat)
      (st : state World) (d : api_data) (short : jsstring) :
  fst (axios_get (world st) (request_of url apiKey alias)) = AxiosResponse d ->
  d_status d = Some (js "success") ->
  d_shortenedUrl d = Some short ->
  str_truthy short = true ->
  shortenUrlWithRetry axios_get url apiKey alias retries st
  = (Returned short, after_request axios_get st (request_of url apiKey alias)).
Proof.
  intros H1 H2 H3 H4. rewrite retry_unfold.
  rewrite (shortenUrl_success _ _ _ _ _ _ H1 H2 H3 H4). reflexivity.
Qed.

(** ** The rewriter *)

Lemma log_nil (st : state World) : log st [] = st.
Proof. destruct st; unfold log; simpl. rewrite app_nil_r. reflexivity. Qed.

Lemma log_log (st : state World) (a b : list event) :
  log (log st a) b = log st (a ++ b).
Proof. unfold log; simpl. rewrite app_assoc. reflexivity. Qed.

(** An already shortened token: the iteration logs the skip and leaves
    the running message and the service alone. *)
Lemma processUrl_skip (apiKey pm url : jsstring) (st : state World) :
  includes (trim url) service_marker = true ->
  processUrl axios_get apiKey pm url st = (Returned pm, log st [EvSkip (trim url)]).
Proof.
  intros H. unfold processUrl, try_catch, bind, emit.
  fold service_marker. rewrite H. reflexivity.
Qed.

Lemma forOf_all_skipped (apiKey : jsstring) (urls : list jsstring)
      (pm : jsstring) (st : state World) :
  forallb (fun u => includes (trim u) service_marker) urls = true ->
  forOf axios_get apiKey urls pm st
  = (Returned pm, log st (map (fun u => EvSkip (trim u)) urls)).
Proof.
  revert st; induction urls as [|u urls IH]; intros st H; simpl in *.
  - rewrite log_nil. reflexivity.
  - apply andb_true_iff in H as [Hu H].
    unfold bind. rewrite (processUrl_skip _ _ _ _ Hu), (IH _ H), log_log.
    reflexivity.
Qed.

Lemma map_trim_tokens (urls : list jsstring) :
  Forall RegexSpec.is_token urls -> map trim urls = urls.
Proof.
  induction 1 as [|u urls Hu _ IH]; simpl; [reflexivity|].
  rewrite (trim_token _ Hu), IH. reflexivity.
Qed.

Lemma processMessage_string (text apiKey : jsstring) (st : state World) :
  processMessage axios_get (JSString text) apiKey st
  = match Regex.match_all text with
    | [] => (Returned (JSString text), st)
    | urls =>
        match forOf axios_get apiKey urls text st with
        | (Returned pm, st') => (Returned (JSString pm), st')
        | (Thrown e, st') => (Thrown e, st')
        end
    end.
Proof.
  unfold processMessage, bind. destruct text as [|c text]; [reflexivity|].
  cbn [truthy str_truthy typeof_string negb orb as_string].
  destruct (Regex.match_all (c :: text)) as [|u l]; [reflexivity|].
  cbn [length Nat.eqb].
  destruct (forOf axios_get apiKey (u :: l) (c :: text) st) as [[pm|e] st'];
    reflexivity.
Qed.

(** C5. No-op on URL-free text: when extraction finds no URL,
    [processMessage] returns the input string itself and leaves the state
    untouched: no request is issued and nothing is logged. *)
Theorem processMessage_no_urls (text apiKey : jsstring) (st : state World)
    (Hnone : extractUrls (JSString text) = []) :
  processMessage axios_get (JSString text) apiKey st
  = (Returned (JSString text), st).
Proof.
  rewrite processMessage_string. rewrite extractUrls_string in Hnone.
  rewrite Hnone. reflexivity.
Qed.

(** C9, as the code has it. An input that is not a string is returned as
    it is, as a value: nothing is thrown, no request is issued and nothing
    is logged. *)
Theorem processMessage_non_string (message : jsvalue) (apiKey : jsstring)
    (st : state World) (Hty : typeof_string message = false) :
  processMessage axios_get message apiKey st = (Returned message, st).
Proof.
  unfold processMessage. rewrite Hty, orb_true_r. reflexivity.
Qed.


(** ** One iteration, and the loop *)

Lemma replay_requests (req : request) (n : nat) (e : event) (m : jsstring) :
  replay (repeat (EvRequest req) n ++ [e]) m = apply_event m e.
Proof.
  unfold replay. rewrite fold_left_app. simpl. f_equal.
  induction n; simpl; auto.
Qed.

Lemma replay_app (a b : list event) (m : jsstring) :
  replay (a ++ b) m = replay b (replay a m).
Proof. apply fold_left_app. Qed.

(** An iteration settles with the running message its block of events
    produces, and appends that block to the trace. *)
Lemma processUrl_block (apiKey pm url : jsstring) (st : state World) :
  exists block st',
    token_block apiKey url block /\
    processUrl axios_get apiKey pm url st = (Returned (replay block pm), st') /\
    trace st' = trace st ++ block.
Proof.
  destruct (includes (trim url) service_marker) eqn:Hskip.
  - exists [EvSkip (trim url)], (log st [EvSkip (trim url)]).
    split; [constructor; exact Hskip|].
    split; [apply processUrl_skip; exact Hskip | reflexivity].
  - destruct (retry_returns (trim url) apiKey [] MAX_RETRIES st)
      as (v & n & Hn & Hv & Ht).
    unfold processUrl, try_catch, bind, emit.
    fold service_marker. rewrite Hskip.
    destruct (shortenUrlWithRetry axios_get (trim url) apiKey [] MAX_RETRIES st)
      as [o st1]. simpl in Hv, Ht. subst o.
    destruct (str_eqb v (trim url)) eqn:Heq; cbn [negb].
    + eexists _, _. split; [apply (block_failed _ _ n Hn)|].
      split; [rewrite replay_requests; reflexivity|].
      simpl. rewrite Ht, <- app_assoc. reflexivity.
    + apply str_eqb_neq in Heq.
      eexists _, _. split; [apply (block_replaced _ _ n v Hn Heq)|].
      split; [rewrite replay_requests; reflexivity|].
      simpl. rewrite Ht, <- app_assoc. reflexivity.
Qed.

Lemma forOf_blocks (apiKey : jsstring) (urls : list jsstring) (pm : jsstring)
      (st : state World) :
  exists blocks st',
    Forall2 (token_block apiKey) urls blocks /\
    forOf axios_get apiKey urls pm st
    = (Returned (replay (concat blocks) pm), st') /\
    trace st' = trace st ++ concat blocks.
Proof.
  revert pm st; induction urls as [|u urls IH]; intros pm st.
  - exists [], st. repeat split; [constructor | simpl; symmetry; apply app_nil_r].
  - destruct (processUrl_block apiKey pm u st) as (b & st1 & Hb & Hrun & Ht).
    destruct (IH (replay b pm) st1) as (bs & st2 & Hbs & Hrun2 & Ht2).
    exists (b :: bs), st2. split; [constructor; assumption|].
    cbn [forOf concat]. unfold bind. rewrite Hrun, Hrun2, replay_app.
    split; [reflexivity|]. rewrite Ht2, Ht, <- app_assoc. reflexivity.
Qed.

(** C6. Order preservation: the events of a run are the blocks of the
    extracted tokens, one block per token, in extraction order and one
    after the other; inside a block the requests come before the
    substitution.  So the substitution for a token is done before any
    request for a later token is issued.  The returned message is the
    input with the substitutions of the trace applied in that order. *)
Theorem processMessage_in_order (text apiKey : jsstring) (st : state World) :
  exists blocks st',
    Forall2 (token_block apiKey) (extractUrls (JSString text)) blocks /\
    processMessage axios_get (JSString text) apiKey st
    = (Returned (JSString (replay (concat blocks) text)), st') /\
    trace st' = trace st ++ concat blocks.
Proof.
  rewrite extractUrls_string, processMessage_string.
  destruct (Regex.match_all text) as [|u l] eqn:E.
  - exists [], st. repeat split; [constructor | simpl; symmetry; apply app_nil_r].
  - destruct (forOf_blocks apiKey (u :: l) text st) as (bs & st' & Hbs & Hrun & Ht).
    exists bs, st'. rewrite Hrun. auto.
Qed.

(** A token that is eligible and that the service shortens at once. *)
Lemma processUrl_replaced (apiKey pm url short : jsstring) (st : state World) :
  includes (trim url) service_marker = false ->
  answers_with short
    (fst (axios_get (world st) (request_of (trim url) apiKey []))) = true ->
  str_truthy short = true ->
  str_eqb short (trim url) = false ->
  processUrl axios_get apiKey pm url st
  = (Returned (replaceAll (trim url) pm short),
     log (after_request axios_get st (request_of (trim url) apiKey []))
         [EvReplaced (trim url) short]).
Proof.
  intros Hskip Hans Htr Hne.
  unfold processUrl, try_catch, bind, emit. fold service_marker.
  rewrite Hskip.
  destruct (fst (axios_get (world st) (request_of (trim url) apiKey [])))
    as [d| | | ] eqn:Hd; try discriminate.
  simpl in Hans. apply andb_true_iff in Hans as [Hs Hu].
  destruct (d_status d) as [ds|] eqn:Eds; [|discriminate].
  destruct (d_shortenedUrl d) as [du|] eqn:Edu; [|discriminate].
  simpl in Hs, Hu. apply str_eqb_eq in Hs, Hu. subst ds du.
  rewrite (retry_first_success _ _ _ _ _ d short Hd Eds Edu Htr).
  rewrite Hne. cbn [negb]. rewrite replaceRegExp_escape. reflexivity.
Qed.

(** C1, as the code has it. Duplicate consistency: in a message
    [p A q A r] whose extraction is [A; A], with a service that answers
    every request for [A] with the same address [S], the wrapper is called
    once for each extracted occurrence, so exactly two requests are
    issued, both for [A]; the first substitution replaces both occurrences
    by [S], and the message returned is [p S q S r].  [S] differs from [A]
    and holds no [$], and [A] does not occur in the result. *)
Theorem processMessage_duplicate
    (apiKey p q r A S : jsstring) (st : state World)
    (Hext : extractUrls (JSString (p ++ A ++ q ++ A ++ r)) = [A; A])
    (Helig : includes A service_marker = false)
    (Hans : forall w,
        answers_with S (fst (axios_get w (request_of A apiKey []))) = true)
    (Htruthy : str_truthy S = true)
    (Hdiff : str_eqb S A = false)
    (Hdollar : no_dollar S = true)
    (Hgone : indexOf (p ++ S ++ q ++ S ++ r) A = None) :
  exists st',
    processMessage axios_get (JSString (p ++ A ++ q ++ A ++ r)) apiKey st
    = (Returned (JSString (p ++ S ++ q ++ S ++ r)), st') /\
    trace st' = trace st ++
      [EvRequest (request_of A apiKey []); EvReplaced A S;
       EvRequest (request_of A apiKey []); EvReplaced A S] /\
    length (requests
      [EvRequest (request_of A apiKey []); EvReplaced A S;
       EvRequest (request_of A apiKey []); EvReplaced A S]) = 2.
Proof.
  rewrite extractUrls_string in Hext.
  assert (Htok : RegexSpec.is_token A).
  { pose proof (RegexFacts.scan_tokens (p ++ A ++ q ++ A ++ r) 0) as F.
    fold (Regex.match_all (p ++ A ++ q ++ A ++ r)) in F. rewrite Hext in F.
    inversion F; assumption. }
  pose proof (trim_token _ Htok) as Htrim.
  pose proof (RegexFacts.token_nonempty _ Htok) as Hne.
  destruct (RegexFacts.twice_extracted _ _ _ _ Hext)
    as (Hfirst & Hsecond & Hlast).
  rewrite processMessage_string, Hext.
  cbn [forOf]. unfold bind.
  rewrite processUrl_replaced with (short := S);
    rewrite ?Htrim; auto.
  rewrite processUrl_replaced with (short := S);
    rewrite ?Htrim; auto.
  rewrite (replaceAll_twice A S p q r Hne Hdollar Hfirst Hsecond Hlast).
  rewrite (replaceAll_absent _ _ _ Hgone).
  eexists. split; [reflexivity|]. split; [|reflexivity].
  simpl. rewrite <- !app_assoc. reflexivity.
Qed.

End PipelineFacts.

Lemma shortenUrlWithRetry_fallback_witness :
  fst (shortenUrlWithRetry never_answers (js "http://foo.com") (js "KEY") []
         MAX_RETRIES st0)
  = Returned (js "http://foo.com") /\
  length (trace (snd (shortenUrlWithRetry never_answers
                        (js "http://foo.com") (js "KEY") [] MAX_RETRIES st0)))
  = 4.
Proof.
  destruct (shortenUrlWithRetry_fallback unit never_answers
              (js "http://foo.com") (js "KEY") [] MAX_RETRIES st0)
    as (Hr & Ht & _).
  - intros w req. reflexivity.
  - split; [exact Hr | rewrite Ht; reflexivity].
Defined.

(** ** The pipeline on concrete messages *)

Lemma processMessage_no_urls_witness :
  processMessage never_answers (JSString (js "hello world, no links here"))
    (js "KEY") st0
  = (Returned (JSString (js "hello world, no links here")), st0).
Proof.
  apply (processMessage_no_urls unit never_answers
           (js "hello world, no links here") (js "KEY") st0).
  reflexivity.
Defined.

Lemma processMessage_non_string_witness :
  processMessage never_answers (JSNumber 42) (js "KEY") st0
  = (Returned (JSNumber 42), st0).
Proof.
  apply (processMessage_non_string unit never_answers (JSNumber 42) (js "KEY") st0).
  reflexivity.
Defined.

(** C9, as the specification states it, fails: a number passed as the
    message is returned as a value and nothing is thrown. *)
Lemma processMessage_non_string_returns :
  fst (processMessage never_answers (JSNumber 42) (js "KEY") st0)
  = Returned (JSNumber 42) /\
  ~ (exists e,
       fst (processMessage never_answers (JSNumber 42) (js "KEY") st0)
       = Thrown e).
Proof.
  split; [reflexivity|]. intros [e He]. discriminate He.
Qed.



(** The same with a service that is down: four requests for the URL. *)
Example uppercase_host_not_skipped :
  trace (snd (processMessage never_answers
                (JSString (js "see http://LINKARA.XYZ/abc")) (js "KEY") st0))
  = repeat (EvRequest (mkRequest (js "KEY") (js "http://LINKARA.XYZ/abc") None)) 4
    ++ [EvFailed (js "http://LINKARA.XYZ/abc")].
Proof. vm_compute. reflexivity. Qed.

(** C1, as the specification states it, fails: on the scenario of the
    specification both occurrences are replaced by the same address, but
    the service is called twice for [http://foo.com], not once. *)
Lemma duplicate_url_two_requests :
  fst (processMessage (always_answers (js "http://lnk.ra/x1"))
         (JSString (js "check http://foo.com and http://foo.com again"))
         (js "KEY") st0)
  = Returned (JSString (js "check http://lnk.ra/x1 and http://lnk.ra/x1 again")) /\
  requests (trace (snd (processMessage (always_answers (js "http://lnk.ra/x1"))
         (JSString (js "check http://foo.com and http://foo.com again"))
         (js "KEY") st0)))
  = [EvRequest (mkRequest (js "KEY") (js "http://foo.com") None);
     EvRequest (mkRequest (js "KEY") (js "http://foo.com") None)] /\
  length (requests (trace (snd (processMessage (always_answers (js "http://lnk.ra/x1"))
         (JSString (js "check http://foo.com and http://foo.com again"))
         (js "KEY") st0)))) <> 1.
Proof.
  split; [vm_compute; reflexivity|].
  split; [vm_compute; reflexivity|].
  vm_compute. discriminate.
Qed.

Lemma processMessage_duplicate_witness :
  exists st',
    processMessage (always_answers (js "http://lnk.ra/x1"))
      (JSString (js "check " ++ js "http://foo.com" ++ js " and "
                 ++ js "http://foo.com" ++ js " again"))
      (js "KEY") st0
    = (Returned (JSString (js "check " ++ js "http://lnk.ra/x1" ++ js " and "
                           ++ js "http://lnk.ra/x1" ++ js " again")), st') /\
    trace st' = trace st0 ++
      [EvRequest (request_of (js "http://foo.com") (js "KEY") []);
       EvReplaced (js "http://foo.com") (js "http://lnk.ra/x1");
       EvRequest (request_of (js "http://foo.com") (js "KEY") []);
       EvReplaced (js "http://foo.com") (js "http://lnk.ra/x1")] /\
    length (requests
      [EvRequest (request_of (js "http://foo.com") (js "KEY") []);
       EvReplaced (js "http://foo.com") (js "http://lnk.ra/x1");
       EvRequest (request_of (js "http://foo.com") (js "KEY") []);
       EvReplaced (js "http://foo.com") (js "http://lnk.ra/x1")]) = 2.
Proof.
  apply (processMessage_duplicate unit (always_answers (js "http://lnk.ra/x1"))
           (js "KEY") (js "check ") (js " and ") (js " again")
           (js "http://foo.com") (js "http://lnk.ra/x1") st0).
  - vm_compute. reflexivity.
  - vm_compute. reflexivity.
  - intros w. vm_compute. reflexivity.
  - reflexivity.
  - vm_compute. reflexivity.
  - vm_compute. reflexivity.
  - vm_compute. reflexivity.
Defined.

(** C4 at a failing input. The second token holds the marker and is
    skipped, with no request for it; but the first token is a prefix of it,
    and the substitution for the first token rewrites it: the skipped token
    is no longer in the returned message. *)
Lemma skipped_token_rewritten :
  extractUrls (JSString (js "a http://foo.com b http://foo.com/linkara.xyz c"))
  = [js "http://foo.com"; js "http://foo.com/linkara.xyz"] /\
  includes (js "http://foo.com/linkara.xyz") service_marker = true /\
  processMessage (always_answers (js "https://linkara.xyz/s1"))
    (JSString (js "a http://foo.com b http://foo.com/linkara.xyz c"))
    (js "KEY") st0
  = (Returned
       (JSString (js "a https://linkara.xyz/s1 b https://linkara.xyz/s1/linkara.xyz c")),
     mkState tt
       [EvRequest (mkRequest (js "KEY") (js "http://foo.com") None);
        EvReplaced (js "http://foo.com") (js "https://linkara.xyz/s1");
        EvSkip (js "http://foo.com/linkara.xyz")]) /\
  includes (js "a https://linkara.xyz/s1 b https://linkara.xyz/s1/linkara.xyz c")
           (js "http://foo.com/linkara.xyz") = false.
Proof. repeat split; vm_compute; reflexivity. Qed.

(** ** The URL the client sends *)

Lemma processedUrl_with_scheme (url : jsstring) :
  startsWith url (js "http://") || startsWith url (js "https://")
  || startsWith url (js "ftp://") = true ->
  processedUrl url = url.
Proof.
  unfold processedUrl. intros H.
  destruct (startsWith url (js "http://")),
    (startsWith url (js "https://")),
    (startsWith url (js "ftp://")); simpl in *; congruence.
Qed.

Lemma processedUrl_without_scheme (url : jsstring) :
  startsWith url (js "http://") || startsWith url (js "https://")
  || startsWith url (js "ftp://") = false ->
  processedUrl url = js "https://" ++ url.
Proof.
  unfold processedUrl. intros H.
  destruct (startsWith url (js "http://")),
    (startsWith url (js "https://")),
    (startsWith url (js "ftp://")); simpl in *; congruence.
Qed.

(** C8 at a failing input. The extractor takes [HTTP://example.com] from a
    message (its pattern ignores case), and the client, whose test for a
    scheme is case-sensitive, sends [https://HTTP://example.com]. *)
Lemma shortenUrl_uppercase_scheme :
  extractUrls (JSString (js "go to HTTP://example.com"))
  = [js "HTTP://example.com"] /\
  trace (snd (shortenUrl never_answers (js "HTTP://example.com") (js "KEY") [] st0))
  = [EvRequest (mkRequest (js "KEY") (js "https://HTTP://example.com") None)] /\
  requests (trace (snd (processMessage (always_answers (js "https://linkara.xyz/s1"))
                          (JSString (js "go to HTTP://example.com")) (js "KEY") st0)))
  = [EvRequest (mkRequest (js "KEY") (js "https://HTTP://example.com") None)].
Proof. repeat split; vm_compute; reflexivity. Qed.

Example ex_scan :
  Regex.match_all (js "see HTTPS://a.b/c?d=1, www.x.y and <ftp://h/p> wwww.z http:// x")
  = [js "HTTPS://a.b/c?d=1,"; js "www.x.y"; js "ftp://h/p"; js "www.z"].
Proof. vm_compute. reflexivity. Qed.

(* ================================================================== *)
(** * More of the pipeline *)

(** ** What extraction returns *)

Lemma lit_app (p q s : jsstring) :
  Regex.lit (p ++ q) s
  = match Regex.lit p s with Some r => Regex.lit q r | None => None end.
Proof.
  revert s; induction p as [|x p IH]; intros s; [reflexivity|].
  destruct s as [|y s]; [reflexivity|].
  cbn [app Regex.lit]. destruct (Regex.ci_eqb x y); [apply IH | reflexivity].
Qed.

Lemma class_plus_head (r x : jsstring) :
  Regex.class_plus r = Some x ->
  match r with c :: _ => Regex.in_class c | [] => false end = true.
Proof.
  unfold Regex.class_plus. destruct r as [|c r]; [discriminate|].
  simpl. destruct (Regex.in_class c); [reflexivity | discriminate].
Qed.

Lemma after_scheme_app (p q s r : jsstring) :
  Regex.lit p s = Some r -> after_scheme q r = true ->
  after_scheme (p ++ q) s = true.
Proof.
  unfold after_scheme. intros H. rewrite lit_app, H. auto.
Qed.

Lemma seq_lit_class_plus (p s r : jsstring) :
  Regex.seq (Regex.lit p) Regex.class_plus s = Some r ->
  after_scheme p s = true.
Proof.
  unfold Regex.seq, after_scheme.
  destruct (Regex.lit p s) as [r1|]; [|discriminate].
  apply class_plus_head.
Qed.

Lemma urlRegex_scheme (s r : jsstring) :
  Regex.urlRegex s = Some r ->
  after_scheme (js "http://") s || after_scheme (js "https://") s
  || after_scheme (js "ftp://") s || after_scheme (js "www.") s = true.
Proof.
  unfold Regex.urlRegex. unfold Regex.alt at 1.
  destruct (Regex.seq (Regex.lit (js "http")) _ s) as [r0|] eqn:E1.
  - intros _. unfold Regex.seq at 1 in E1.
    destruct (Regex.lit (js "http") s) as [r1|] eqn:Eh; [|discriminate].
    unfold Regex.opt_then, Regex.alt in E1.
    destruct (Regex.seq (Regex.lit (js "s")) _ r1) as [r2|] eqn:E2.
    + unfold Regex.seq at 1 in E2.
      destruct (Regex.lit (js "s") r1) as [r3|] eqn:Es; [|discriminate].
      apply seq_lit_class_plus in E2.
      pose proof (after_scheme_app _ _ _ _ Es E2) as H2.
      pose proof (after_scheme_app _ _ _ _ Eh H2) as H3.
      change (js "http" ++ js "s" ++ js "://") with (js "https://") in H3.
      rewrite H3, orb_true_r. reflexivity.
    + apply seq_lit_class_plus in E1.
      pose proof (after_scheme_app _ _ _ _ Eh E1) as H2.
      change (js "http" ++ js "://") with (js "http://") in H2.
      rewrite H2. reflexivity.
  - unfold Regex.alt.
    destruct (Regex.seq (Regex.lit (js "ftp://")) _ s) as [r0|] eqn:E3.
    + intros _. rewrite (seq_lit_class_plus _ _ _ E3), !orb_true_r.
      reflexivity.
    + intros E4. rewrite (seq_lit_class_plus _ _ _ E4), !orb_true_r.
      reflexivity.
Qed.

(** X1. Every extracted URL is made of class characters only (no white
    space, no delimiter) and begins, whatever the case, with [http://],
    [https://], [ftp://] or [www.] and at least one more character. *)
Theorem extractUrls_shape (message : jsvalue) :
  forallb url_shape (extractUrls message) = true.
Proof.
  destruct (typeof_string message) eqn:Hty.
  2:{ unfold extractUrls. rewrite Hty, orb_true_r. reflexivity. }
  destruct message; try discriminate. rewrite extractUrls_string.
  apply forallb_forall. intros t Ht.
  pose proof (RegexFacts.scan_tokens s 0) as F.
  rewrite Forall_forall in F. specialize (F t Ht).
  unfold url_shape. rewrite (RegexFacts.token_in_class _ F). simpl.
  unfold RegexSpec.is_token, Regex.match_at in F.
  destruct (Regex.urlRegex t) as [r|] eqn:E; [|discriminate].
  exact (urlRegex_scheme _ _ E).
Qed.

Lemma match_at_prefix (s tok : jsstring) :
  Regex.match_at s = Some tok -> s = tok ++ skipn (length tok) s.
Proof.
  unfold Regex.match_at. destruct (Regex.urlRegex s) as [r|]; [|discriminate].
  intros [= <-].
  rewrite length_firstn, Nat.min_l by lia. symmetry. apply firstn_skipn.
Qed.

Lemma scan_weave (s : jsstring) :
  forall k, exists gaps rest,
    length gaps = length (Regex.scan k s) /\
    skipn k s = weave gaps (Regex.scan k s) ++ rest.
Proof.
  induction s as [|c s IH]; intros k.
  - exists [], []. destruct k; auto.
  - destruct k as [|k].
    + cbn [Regex.scan skipn].
      destruct (Regex.match_at (c :: s)) as [tok|] eqn:E.
      * destruct (IH (length tok - 1)) as (gaps & rest & Hl & Hs).
        exists ([] :: gaps), rest. split; [simpl; congruence|].
        cbn [weave app]. rewrite <- app_assoc, <- Hs.
        pose proof (RegexFacts.token_nonempty _ (RegexFacts.match_at_token _ _ E)).
        rewrite (match_at_prefix _ _ E) at 1.
        destruct tok as [|x tok]; [congruence|].
        simpl. rewrite Nat.sub_0_r. reflexivity.
      * destruct (IH 0) as (gaps & rest & Hl & Hs). simpl in Hs.
        destruct gaps as [|g gaps].
        -- exists [], (c :: rest). split; [exact Hl|].
           destruct (Regex.scan 0 s); simpl in *; [congruence | discriminate].
        -- destruct (Regex.scan 0 s) as [|u us]; [discriminate|].
           exists ((c :: g) :: gaps), rest. split; [exact Hl|].
           simpl in *. congruence.
    + cbn [Regex.scan skipn]. apply IH.
Qed.

(** X2. The extracted URLs are pieces of the message, disjoint and in the
    order of extraction: the message is a gap, a URL, a gap, a URL, ...
    and a rest. *)
Theorem extractUrls_weave (text : jsstring) :
  exists gaps rest,
    length gaps = length (extractUrls (JSString text)) /\
    text = weave gaps (extractUrls (JSString text)) ++ rest.
Proof.
  rewrite extractUrls_string. exact (scan_weave text 0).
Qed.

(** ** The client, once more *)

Section MorePipelineFacts.

Variable World : Type.
Variable axios_get : World -> request -> axios_result * World.

(** X3. One call of [shortenUrl] is exactly one call of [axios.get],
    however that settles (a set-up error included).  The query of the call
    is built from the key, the normalized URL, and the alias when that is
    not empty: these are the entries handed to [URLSearchParams]. *)
Theorem shortenUrl_single_request (url apiKey alias : jsstring)
    (st : state World) :
  trace (snd (shortenUrl axios_get url apiKey alias st))
  = trace st ++
    [EvRequest (mkRequest apiKey (processedUrl url)
                  (if str_truthy alias then Some alias else None))] /\
  world (snd (shortenUrl axios_get url apiKey alias st))
  = snd (axios_get (world st)
           (mkRequest apiKey (processedUrl url)
              (if str_truthy alias then Some alias else None))).
Proof.
  rewrite shortenUrl_one_request. split; reflexivity.
Qed.

(** X4. What [shortenUrl] settles with: the [shortenedUrl] field as it is on a
    success, and otherwise an error whose message depends on the kind of
    failure; a failure reported by the service in a well-formed response is
    wrapped twice ([Error: API Error: ...]). *)
Theorem shortenUrl_outcome (url apiKey alias : jsstring) (st : state World) :
  fst (shortenUrl axios_get url apiKey alias st)
  = match fst (axios_get (world st) (request_of url apiKey alias)) with
    | AxiosResponse d =>
        if is_success (AxiosResponse d)
        then Returned (match d_shortenedUrl d with Some u => u | None => [] end)
        else Thrown (Error (failure_message (AxiosResponse d)))
    | r => Thrown (Error (failure_message r))
    end.
Proof.
  unfold shortenUrl, try_catch, bind, http_get, request_of.
  destruct (axios_get (world st) _) as [r w'] eqn:E. simpl.
  destruct r as [d| m s t | m | m]; simpl; try reflexivity.
  destruct (opt_str_is (d_status d) (js "success")
            && opt_str_truthy (d_shortenedUrl d)); reflexivity.
Qed.

(** X5. Normalization is idempotent, and what it returns starts with one of
    the three schemes. *)
Theorem processedUrl_idempotent (url : jsstring) :
  processedUrl (processedUrl url) = processedUrl url /\
  startsWith (processedUrl url) (js "http://")
  || startsWith (processedUrl url) (js "https://")
  || startsWith (processedUrl url) (js "ftp://") = true.
Proof.
  assert (H : startsWith (processedUrl url) (js "http://")
              || startsWith (processedUrl url) (js "https://")
              || startsWith (processedUrl url) (js "ftp://") = true).
  { destruct (startsWith url (js "http://") || startsWith url (js "https://")
              || startsWith url (js "ftp://")) eqn:C.
    - rewrite (processedUrl_with_scheme _ C). exact C.
    - rewrite (processedUrl_without_scheme _ C).
      rewrite (startsWith_app (js "https://") url), orb_true_r.
      reflexivity. }
  split; [|exact H].
  apply processedUrl_with_scheme, H.
Qed.

Lemma after_requests_trace (n : nat) (st : state World) (req : request) :
  trace (after_requests axios_get n st req)
  = trace st ++ repeat (EvRequest req) n.
Proof.
  revert st; induction n as [|n IH]; intros st; simpl.
  - symmetry; apply app_nil_r.
  - rewrite IH, trace_after_request, <- app_assoc. reflexivity.
Qed.

(** X6. The wrapper never throws: it settles with a value after at least one
    and at most [retries + 1] requests, all of them the same. *)
Theorem shortenUrlWithRetry_bounded (url apiKey alias : jsstring)
    (retries : nat) (st : state World) :
  exists v n,
    1 <= n <= retries + 1 /\
    shortenUrlWithRetry axios_get url apiKey alias retries st
    = (Returned v,
       after_requests axios_get n st (request_of url apiKey alias)).
Proof.
  revert st; induction retries as [|r IH]; intros st; rewrite retry_unfold;
    destruct (fst (shortenUrl axios_get url apiKey alias st)) as [a|e].
  - exists a, 1. split; [lia | reflexivity].
  - exists url, 1. split; [lia | reflexivity].
  - exists a, 1. split; [lia | reflexivity].
  - destruct (IH (after_request axios_get st (request_of url apiKey alias)))
      as (v & n & Hn & Hrun).
    exists v, (S n). split; [lia | exact Hrun].
Qed.

(** X7. The wrapper stops at the first success: when the first [n] attempts
    fail and the next one succeeds, within the budget, it returns the
    shortened address after exactly [n + 1] requests. *)
Theorem shortenUrlWithRetry_first_success
    (url apiKey alias short : jsstring) (retries n : nat) (st : state World)
    (Hbudget : n <= retries)
    (Hfail : forall i, i < n ->
       is_success (fst (axios_get
         (world (after_requests axios_get i st (request_of url apiKey alias)))
         (request_of url apiKey alias))) = false)
    (Hok : answers_with short (fst (axios_get
         (world (after_requests axios_get n st (request_of url apiKey alias)))
         (request_of url apiKey alias))) = true)
    (Htruthy : str_truthy short = true) :
  shortenUrlWithRetry axios_get url apiKey alias retries st
  = (Returned short,
     after_requests axios_get (S n) st (request_of url apiKey alias)).
Proof.
  revert retries st Hbudget Hfail Hok.
  induction n as [|n IH]; intros retries st Hbudget Hfail Hok.
  - simpl in Hok.
    destruct (fst (axios_get (world st) (request_of url apiKey alias)))
      as [d| | | ] eqn:Hd; try discriminate.
    simpl in Hok. apply andb_true_iff in Hok as [Hs Hu].
    destruct (d_status d) as [ds|] eqn:Eds; [|discriminate].
    destruct (d_shortenedUrl d) as [du|] eqn:Edu; [|discriminate].
    simpl in Hs, Hu. apply str_eqb_eq in Hs, Hu. subst ds du.
    apply (retry_first_success _ _ _ _ _ _ _ d short Hd Eds Edu Htruthy).
  - destruct retries as [|retries]; [lia|].
    rewrite retry_unfold.
    destruct (shortenUrl_failure _ axios_get url apiKey alias st (Hfail 0 ltac:(lia)))
      as [e ->].
    apply IH; [lia | | exact Hok].
    intros i Hi. apply (Hfail (S i)). lia.
Qed.

End MorePipelineFacts.

Lemma shortenUrlWithRetry_first_success_witness :
  shortenUrlWithRetry (third_time_lucky (js "https://linkara.xyz/s1"))
    (js "http://foo.com") (js "KEY") [] MAX_RETRIES (mkState 0 [])
  = (Returned (js "https://linkara.xyz/s1"),
     mkState 3 (repeat (EvRequest (mkRequest (js "KEY") (js "http://foo.com") None)) 3)).
Proof.
  apply (shortenUrlWithRetry_first_success nat
           (third_time_lucky (js "https://linkara.xyz/s1"))
           (js "http://foo.com") (js "KEY") [] (js "https://linkara.xyz/s1")
           MAX_RETRIES 2 (mkState 0 [])).
  - unfold MAX_RETRIES. lia.
  - intros i Hi. destruct i as [|[|i]]; [reflexivity | reflexivity | lia].
  - reflexivity.
  - reflexivity.
Defined.

(** ** The rewriter, once more *)

Section MoreRewriterFacts.

Variable World : Type.
Variable axios_get : World -> request -> axios_result * World.

Lemma requests_app (a b : list event) :
  requests (a ++ b) = requests a ++ requests b.
Proof. apply filter_app. Qed.

Lemma requests_repeat (req : request) (n : nat) :
  requests (repeat (EvRequest req) n) = repeat (EvRequest req) n.
Proof. induction n; simpl; congruence. Qed.

Lemma token_block_requests (apiKey url : jsstring) (block : list event) :
  token_block apiKey url block ->
  length (requests block) <= MAX_RETRIES + 1.
Proof.
  intros [H | n short Hn _ | n Hn]; unfold MAX_RETRIES in *;
    [simpl; lia | |];
    rewrite requests_app, requests_repeat, length_app, repeat_length;
    simpl; lia.
Qed.

Lemma blocks_requests (apiKey : jsstring) (urls : list jsstring)
      (blocks : list (list event)) :
  Forall2 (token_block apiKey) urls blocks ->
  length (requests (concat blocks)) <= (MAX_RETRIES + 1) * length urls.
Proof.
  induction 1 as [|u b urls blocks Hb _ IH]; [simpl; lia|].
  cbn [concat]. rewrite requests_app, length_app.
  pose proof (token_block_requests _ _ _ Hb). simpl length. lia.
Qed.

(** X8. [processMessage] never throws, whatever it is given and whatever the
    service does, and it issues at most [MAX_RETRIES + 1] requests for each
    extracted URL. *)
Theorem processMessage_request_bound (message : jsvalue) (apiKey : jsstring)
    (st : state World) :
  exists v st' new,
    processMessage axios_get message apiKey st = (Returned v, st') /\
    trace st' = trace st ++ new /\
    length (requests new)
    <= (MAX_RETRIES + 1) * length (extractUrls message).
Proof.
  destruct (typeof_string message) eqn:Hty.
  2:{ exists message, st, [].
      unfold processMessage, extractUrls. rewrite Hty, orb_true_r.
      repeat split; [symmetry; apply app_nil_r | simpl; lia]. }
  destruct message as [ | | | |text| ]; try discriminate.
  rewrite extractUrls_string, processMessage_string.
  destruct (Regex.match_all text) as [|u l] eqn:E.
  - exists (JSString text), st, [].
    repeat split; [symmetry; apply app_nil_r | simpl; lia].
  - destruct (forOf_blocks _ axios_get apiKey (u :: l) text st)
      as (bs & st' & Hbs & Hrun & Ht).
    rewrite Hrun. eexists _, st', (concat bs).
    repeat split; [exact Ht | apply (blocks_requests _ _ _ Hbs)].
Qed.





(** *** When the service is down *)

Lemma retry_all_fail (url apiKey alias : jsstring) (retries : nat)
      (st : state World) :
  (forall w, is_success (fst (axios_get w (request_of url apiKey alias))) = false) ->
  shortenUrlWithRetry axios_get url apiKey alias retries st
  = (Returned url,
     after_requests axios_get (S retries) st (request_of url apiKey alias)).
Proof.
  intros Hfail. revert st; induction retries as [|r IH]; intros st;
    rewrite retry_unfold;
    destruct (shortenUrl_failure _ axios_get url apiKey alias st (Hfail _))
      as [e ->]; [reflexivity | apply IH].
Qed.

Lemma processUrl_failed (apiKey pm url : jsstring) (st : state World) :
  includes (trim url) service_marker = false ->
  (forall w, is_success
     (fst (axios_get w (request_of (trim url) apiKey []))) = false) ->
  processUrl axios_get apiKey pm url st
  = (Returned pm,
     log (after_requests axios_get (S MAX_RETRIES) st
            (request_of (trim url) apiKey []))
         [EvFailed (trim url)]).
Proof.
  intros Hskip Hfail. unfold processUrl, try_catch, bind, emit.
  fold service_marker. rewrite Hskip, (retry_all_fail _ _ _ _ _ Hfail).
  rewrite str_eqb_refl. reflexivity.
Qed.

Lemma forOf_service_down (apiKey : jsstring) (urls : list jsstring)
      (pm : jsstring) (st : state World) :
  (forall w req, is_success (fst (axios_get w req)) = false) ->
  exists st',
    forOf axios_get apiKey urls pm st = (Returned pm, st') /\
    length (requests (trace st'))
    = length (requests (trace st))
      + (MAX_RETRIES + 1) * length (filter (fun u => eligible (trim u)) urls).
Proof.
  intros Hfail. revert st; induction urls as [|u urls IH]; intros st.
  - exists st. split; [reflexivity | simpl; lia].
  - cbn [forOf filter]. unfold bind, eligible at 1.
    destruct (includes (trim u) service_marker) eqn:Hskip; cbn [negb].
    + rewrite (processUrl_skip _ _ _ _ _ _ Hskip).
      destruct (IH (log st [EvSkip (trim u)])) as (st' & Hrun & Hlen).
      exists st'. split; [exact Hrun|]. rewrite Hlen. simpl trace.
      rewrite requests_app. simpl. rewrite app_nil_r. reflexivity.
    + rewrite (processUrl_failed _ _ _ _ Hskip (fun w => Hfail w _)).
      match goal with |- context [forOf _ _ _ _ ?s] =>
        destruct (IH s) as (st' & Hrun & Hlen) end.
      exists st'. split; [exact Hrun|]. rewrite Hlen.
      unfold log. cbn [trace].
      rewrite requests_app, after_requests_trace, requests_app,
        requests_repeat, !length_app, repeat_length.
      simpl length. unfold MAX_RETRIES. lia.
Qed.

(** X10. When every call of the service fails, the message comes back as it
    was, after exactly [MAX_RETRIES + 1] requests for each extracted URL
    that is eligible. *)
Theorem processMessage_service_down (text apiKey : jsstring) (st : state World)
    (Hfail : forall w req, is_success (fst (axios_get w req)) = false) :
  fst (processMessage axios_get (JSString text) apiKey st)
  = Returned (JSString text) /\
  length (requests (trace (snd (processMessage axios_get (JSString text) apiKey st))))
  = length (requests (trace st))
    + (MAX_RETRIES + 1)
      * length (filter eligible (extractUrls (JSString text))).
Proof.
  rewrite extractUrls_string, processMessage_string.
  pose proof (RegexFacts.scan_tokens text 0) as Htok.
  fold (Regex.match_all text) in Htok.
  destruct (Regex.match_all text) as [|u l] eqn:E.
  - split; [reflexivity | simpl; lia].
  - destruct (forOf_service_down apiKey (u :: l) text st Hfail)
      as (st' & Hrun & Hlen).
    rewrite Hrun. split; [reflexivity|]. simpl snd. rewrite Hlen.
    do 3 f_equal. clear -Htok.
    induction Htok as [|x xs Hx _ IH]; [reflexivity|].
    simpl. rewrite (trim_token _ Hx), IH. reflexivity.
Qed.

(** *** One URL fails, the next one is still shortened *)

(** X11. Partial failure: in a message [p A q B r] whose extraction is
    [A; B], both eligible, with the service failing on every request for
    [A] and answering [short] for [B], the rewriter gives up on [A] after
    [MAX_RETRIES + 1] requests and goes on to shorten [B]: the message
    returned is [p A q short r], with [A] as it was and [B] replaced.
    [B] occurs in the message at the place shown only, and [short] holds
    no [$]. *)
Theorem processMessage_partial_failure
    (apiKey p q r A B short : jsstring) (st : state World)
    (Hext : extractUrls (JSString (p ++ A ++ q ++ B ++ r)) = [A; B])
    (HA : eligible A = true)
    (HB : eligible B = true)
    (Hdown : forall w,
        is_success (fst (axios_get w (request_of A apiKey []))) = false)
    (Hup : forall w,
        answers_with short (fst (axios_get w (request_of B apiKey []))) = true)
    (Htruthy : str_truthy short = true)
    (Hdiff : str_eqb short B = false)
    (Hdollar : no_dollar short = true)
    (Hocc : indexOf (p ++ A ++ q ++ B ++ r) B = Some (length (p ++ A ++ q)))
    (Hlast : indexOf r B = None) :
  exists st',
    processMessage axios_get (JSString (p ++ A ++ q ++ B ++ r)) apiKey st
    = (Returned (JSString (p ++ A ++ q ++ short ++ r)), st') /\
    trace st' = trace st
      ++ repeat (EvRequest (request_of A apiKey [])) (MAX_RETRIES + 1)
      ++ [EvFailed A; EvRequest (request_of B apiKey []); EvReplaced B short].
Proof.
  rewrite extractUrls_string in Hext.
  pose proof (RegexFacts.scan_tokens (p ++ A ++ q ++ B ++ r) 0) as Htok.
  fold (Regex.match_all (p ++ A ++ q ++ B ++ r)) in Htok. rewrite Hext in Htok.
  inversion Htok as [|? ? HtA Htok']; subst.
  inversion Htok' as [|? ? HtB _]; subst.
  pose proof (trim_token _ HtA) as TA. pose proof (trim_token _ HtB) as TB.
  assert (Hrep : replaceAll B (p ++ A ++ q ++ B ++ r) short
                 = p ++ A ++ q ++ short ++ r).
  { destruct B as [|x B']; [elim (RegexFacts.token_nonempty _ HtB); reflexivity|].
    unfold replaceAll.
    replace (p ++ A ++ q ++ (x :: B') ++ r)
      with ((p ++ A ++ q) ++ (x :: B') ++ r) in *
      by (rewrite <- !app_assoc; reflexivity).
    rewrite (replace_go_first x B' short [] (p ++ A ++ q) r Hdollar Hocc).
    rewrite (replace_go_absent _ _ _ _ Hlast), <- !app_assoc. reflexivity. }
  unfold eligible in HA, HB. apply negb_true_iff in HA, HB.
  rewrite processMessage_string, Hext. cbn [forOf]. unfold bind.
  rewrite processUrl_failed by (rewrite ?TA; auto).
  rewrite processUrl_replaced with (short := short) by (rewrite ?TB; auto).
  rewrite TA, TB, Hrep. eexists. split; [reflexivity|].
  unfold log, after_request. cbn [trace].
  rewrite after_requests_trace, <- !app_assoc.
  replace (S MAX_RETRIES) with (MAX_RETRIES + 1) by (unfold MAX_RETRIES; lia).
  reflexivity.
Qed.

End MoreRewriterFacts.

(** X12. In what [escapeRegExp] returns no character of
    [.*+?^${}()|[]\ ] stands bare: each one comes right after a backslash
    that escapes it, and a backslash escapes nothing else; taking the
    escaping backslashes away gives the URL back. *)
Theorem escapeRegExp_escapes_all (url : jsstring) :
  escaped_only (escapeRegExp url) = true /\
  pattern_literal (escapeRegExp url) = url.
Proof.
  split; [|apply pattern_literal_escape].
  induction url as [|c url IH]; [reflexivity|].
  unfold escapeRegExp in *. cbn [flat_map].
  destruct (is_regex_special c) eqn:E.
  - cbn [app escaped_only]. unfold backslash at 1.
    rewrite N.eqb_refl, E. exact IH.
  - cbn [app escaped_only].
    destruct (N.eqb c backslash) eqn:Ec.
    + apply N.eqb_eq in Ec. subst c. discriminate E.
    + rewrite E. exact IH.
Qed.

Lemma processMessage_service_down_witness :
  fst (processMessage never_answers
         (JSString (js "see http://foo.com and https://linkara.xyz/abc www.bar.org"))
         (js "KEY") st0)
  = Returned (JSString (js "see http://foo.com and https://linkara.xyz/abc www.bar.org")) /\
  length (requests (trace (snd (processMessage never_answers
         (JSString (js "see http://foo.com and https://linkara.xyz/abc www.bar.org"))
         (js "KEY") st0))))
  = 8.
Proof.
  apply (processMessage_service_down unit never_answers
           (js "see http://foo.com and https://linkara.xyz/abc www.bar.org")
           (js "KEY") st0).
  intros w req. reflexivity.
Defined.

Lemma processMessage_partial_failure_witness :
  exists st',
    processMessage (down_for (js "http://down.example") (js "https://linkara.xyz/s1"))
      (JSString (js "see " ++ js "http://down.example" ++ js " and "
                 ++ js "http://ok.example" ++ js " too"))
      (js "KEY") st0
    = (Returned (JSString (js "see " ++ js "http://down.example" ++ js " and "
                           ++ js "https://linkara.xyz/s1" ++ js " too")), st') /\
    trace st' = trace st0
      ++ repeat (EvRequest (request_of (js "http://down.example") (js "KEY") []))
           (MAX_RETRIES + 1)
      ++ [EvFailed (js "http://down.example");
          EvRequest (request_of (js "http://ok.example") (js "KEY") []);
          EvReplaced (js "http://ok.example") (js "https://linkara.xyz/s1")].
Proof.
  apply (processMessage_partial_failure unit
           (down_for (js "http://down.example") (js "https://linkara.xyz/s1"))
           (js "KEY") (js "see ") (js " and ") (js " too")
           (js "http://down.example") (js "http://ok.example")
           (js "https://linkara.xyz/s1") st0).
  - vm_compute. reflexivity.
  - vm_compute. reflexivity.
  - vm_compute. reflexivity.
  - intros w. vm_compute. reflexivity.
  - intros w. vm_compute. reflexivity.
  - reflexivity.
  - vm_compute. reflexivity.
  - vm_compute. reflexivity.
  - vm_compute. reflexivity.
  - vm_compute. reflexivity.
Defined.

(* ================================================================== *)
(** * The in-memory store *)

(** ** Facts about the maps *)

Module JSMapFacts.
Import JSMap.

Lemma get_set_same {V} (m : t V) (k : N) (v : V) : get (set m k v) k = Some v.
Proof.
  induction m as [|[k' v'] m IH]; simpl.
  - rewrite N.eqb_refl. reflexivity.
  - destruct (N.eqb k' k) eqn:E; simpl; rewrite E; auto.
Qed.

Lemma get_set_other {V} (m : t V) (k j : N) (v : V) :
  j <> k -> get (set m k v) j = get m j.
Proof.
  intros Hne. induction m as [|[k' v'] m IH]; simpl.
  - destruct (N.eqb k j) eqn:E; [apply N.eqb_eq in E; congruence | reflexivity].
  - destruct (N.eqb k' k) eqn:E; simpl.
    + apply N.eqb_eq in E. subst k'.
      destruct (N.eqb k j) eqn:E'; [apply N.eqb_eq in E'; congruence|].
      reflexivity.
    + rewrite IH. reflexivity.
Qed.

Lemma get_delete_same {V} (m : t V) (k : N) : get (delete m k) k = None.
Proof.
  induction m as [|[k' v'] m IH]; simpl; [reflexivity|].
  destruct (N.eqb k' k) eqn:E; simpl; [exact IH | rewrite E; exact IH].
Qed.

Lemma get_delete_other {V} (m : t V) (k j : N) :
  j <> k -> get (delete m k) j = get m j.
Proof.
  intros Hne. induction m as [|[k' v'] m IH]; simpl; [reflexivity|].
  destruct (N.eqb k' k) eqn:E; simpl.
  - apply N.eqb_eq in E. subst k'.
    destruct (N.eqb k j) eqn:E'; [apply N.eqb_eq in E'; congruence | exact IH].
  - rewrite IH. reflexivity.
Qed.

Lemma has_in_keys {V} (m : t V) (k : N) : has m k = true <-> In k (keys m).
Proof.
  unfold has. induction m as [|[k' v'] m IH]; simpl.
  - split; [discriminate | tauto].
  - destruct (N.eqb k' k) eqn:E.
    + apply N.eqb_eq in E. split; auto.
    + apply N.eqb_neq in E. rewrite IH. split; [auto | intros [H|H]; congruence].
Qed.

Lemma keys_set_old {V} (m : t V) (k : N) (v : V) :
  has m k = true -> keys (set m k v) = keys m.
Proof.
  unfold has. induction m as [|[k' v'] m IH]; simpl; [discriminate|].
  destruct (N.eqb k' k) eqn:E; simpl; [reflexivity|].
  intros H. rewrite (IH H). reflexivity.
Qed.

Lemma keys_set_new {V} (m : t V) (k : N) (v : V) :
  has m k = false -> keys (set m k v) = keys m ++ [k].
Proof.
  unfold has. induction m as [|[k' v'] m IH]; simpl; [reflexivity|].
  destruct (N.eqb k' k) eqn:E; simpl; [discriminate|].
  intros H. rewrite (IH H). reflexivity.
Qed.

Lemma keys_delete {V} (m : t V) (k : N) :
  keys (delete m k) = filter (fun j => negb (N.eqb j k)) (keys m).
Proof.
  induction m as [|[k' v'] m IH]; simpl; [reflexivity|].
  destruct (N.eqb k' k); simpl; rewrite IH; reflexivity.
Qed.

Lemma NoDup_filter {A} (f : A -> bool) (l : list A) :
  NoDup l -> NoDup (filter f l).
Proof.
  induction 1 as [|x l Hx _ IH]; simpl; [constructor|].
  destruct (f x); [constructor; [|exact IH] | exact IH].
  intros H. apply filter_In in H. tauto.
Qed.

Lemma NoDup_keys_set {V} (m : t V) (k : N) (v : V) :
  NoDup (keys m) -> NoDup (keys (set m k v)).
Proof.
  intros H. destruct (has m k) eqn:E.
  - rewrite keys_set_old by assumption. exact H.
  - rewrite keys_set_new by assumption.
    apply NoDup_app; [exact H | repeat constructor; auto |].
    intros x Hx [<-|[]]. apply has_in_keys in Hx. congruence.
Qed.

Lemma filter_remove_length (k : N) (l : list N) :
  NoDup l -> In k l ->
  S (length (filter (fun j => negb (N.eqb j k)) l)) = length l.
Proof.
  induction 1 as [|x l Hx Hnd IH]; intros Hin; [destruct Hin|].
  simpl. destruct (N.eqb x k) eqn:E; simpl.
  - apply N.eqb_eq in E. subst x. f_equal.
    clear IH Hin Hnd. induction l as [|y l IH]; [reflexivity|].
    simpl. destruct (N.eqb y k) eqn:E'.
    + apply N.eqb_eq in E'. subst y. elim Hx. left; reflexivity.
    + simpl. rewrite IH; [reflexivity|]. intros H. apply Hx. right; exact H.
  - destruct Hin as [->|Hin]; [rewrite N.eqb_refl in E; discriminate|].
    rewrite (IH Hin). reflexivity.
Qed.

End JSMapFacts.

(** ** [trim] is idempotent *)

Lemma dropWhile_idem (f : char -> bool) (s : jsstring) :
  dropWhile f (dropWhile f s) = dropWhile f s.
Proof.
  induction s as [|c s IH]; simpl; [reflexivity|].
  destruct (f c) eqn:E; [exact IH | simpl; rewrite E; reflexivity].
Qed.

Lemma dropWhile_head_false (f : char -> bool) (s : jsstring) :
  match dropWhile f s with [] => True | c :: _ => f c = false end.
Proof.
  induction s as [|c s IH]; simpl; [exact I|].
  destruct (f c) eqn:E; [exact IH | exact E].
Qed.

Lemma dropWhile_last (f : char -> bool) (s : jsstring) (d : char) :
  dropWhile f s <> [] -> last (dropWhile f s) d = last s d.
Proof.
  induction s as [|c s IH]; simpl; [congruence|].
  destruct (f c) eqn:E; [|reflexivity].
  intros H. rewrite (IH H).
  destruct s as [|c' s]; [elim H; reflexivity | reflexivity].
Qed.

Lemma dropWhile_rev_last (f : char -> bool) (y : jsstring) :
  y <> [] -> f (last y 0%N) = false -> dropWhile f (rev y) = rev y.
Proof.
  intros Hy Hl. destruct (exists_last Hy) as (a & l & ->).
  rewrite last_last in Hl. rewrite rev_app_distr. simpl. rewrite Hl.
  reflexivity.
Qed.

Lemma trim_idempotent (s : jsstring) : trim (trim s) = trim s.
Proof.
  unfold trim. set (x := dropWhile is_space s).
  set (y := dropWhile is_space (rev x)). f_equal.
  destruct y as [|c y'] eqn:Ey; [reflexivity|].
  assert (Hy : y <> []) by (subst y; rewrite Ey; discriminate).
  rewrite <- Ey.
  assert (Hl : is_space (last y 0%N) = false).
  { subst y. rewrite dropWhile_last by assumption.
    assert (Hx : x <> []).
    { intros Hx. rewrite Hx in Hy. apply Hy. reflexivity. }
    pose proof (dropWhile_head_false is_space s) as Hh. fold x in Hh.
    destruct x as [|h x']; [congruence|].
    simpl rev. rewrite last_last. exact Hh. }
  rewrite (dropWhile_rev_last _ _ Hy Hl), rev_involutive.
  subst y. apply dropWhile_idem.
Qed.

(** ** The store *)

Module UserStorageFacts.
Import UserStorage JSMapFacts.

Lemma setUserApiKey_valid (d1 d2 u : N) (k : jsstring) (st : store) :
  valid_args u k = true ->
  setUserApiKey d1 d2 u k st
  = (Returned tt,
     mkStore (JSMap.set (userApiKeys st) u (trim k))
       (if negb (JSMap.has (userStats st) u)
        then JSMap.set (userStats st) u (mkStats 0%Z d1 d2)
        else userStats st)).
Proof.
  unfold valid_args, setUserApiKey. intros H.
  apply andb_true_iff in H as [H1 H2]. apply negb_true_iff in H1.
  rewrite H1, H2. reflexivity.
Qed.

Lemma setUserApiKey_invalid (d1 d2 u : N) (k : jsstring) (st : store) :
  valid_args u k = false ->
  setUserApiKey d1 d2 u k st
  = (Thrown (Error (js "User ID and API key are required")), st).
Proof.
  unfold valid_args, setUserApiKey. intros H.
  destruct (N.eqb u 0); [reflexivity|]. simpl in *. rewrite H. reflexivity.
Qed.

(** X13. [setUserApiKey] stores the key exactly when the user id is not [0]
    and the key is not empty; otherwise it throws and the store is as
    before. *)
Theorem setUserApiKey_validation (d1 d2 u : N) (k : jsstring) (st : store) :
  (fst (setUserApiKey d1 d2 u k st) = Returned tt
   <-> u <> 0%N /\ k <> []) /\
  (fst (setUserApiKey d1 d2 u k st) <> Returned tt ->
   setUserApiKey d1 d2 u k st
   = (Thrown (Error (js "User ID and API key are required")), st)).
Proof.
  destruct (valid_args u k) eqn:V.
  - rewrite (setUserApiKey_valid _ _ _ _ _ V). simpl.
    unfold valid_args in V. apply andb_true_iff in V as [V1 V2].
    apply negb_true_iff, N.eqb_neq in V1.
    split; [|congruence]. split; [|reflexivity].
    intros _. split; [exact V1|]. destruct k; [discriminate | discriminate].
  - rewrite (setUserApiKey_invalid _ _ _ _ _ V). simpl.
    split; [|reflexivity]. split; [discriminate|].
    intros [Hu Hk]. unfold valid_args in V.
    apply N.eqb_neq in Hu. rewrite Hu in V. destruct k; [congruence|].
    discriminate V.
Qed.

(** X14. After a key is stored, [hasApiKey] is true for the user and
    [getUserApiKey] gives the key trimmed; a key made of white space only
    is stored as the empty string, for which [getUserApiKey] gives
    [null]. *)
Theorem setUserApiKey_roundtrip (d1 d2 u : N) (k : jsstring) (st : store)
    (Hvalid : valid_args u k = true) :
  hasApiKey u (snd (setUserApiKey d1 d2 u k st)) = true /\
  getUserApiKey u (snd (setUserApiKey d1 d2 u k st))
  = (if str_truthy (trim k) then Some (trim k) else None).
Proof.
  rewrite (setUserApiKey_valid _ _ _ _ _ Hvalid).
  unfold hasApiKey, getUserApiKey, JSMap.has. simpl.
  rewrite get_set_same. auto.
Qed.

(** X15. Storing, removing or counting for one user leaves what the store
    holds for every other user as it was. *)
Theorem other_users_untouched (d1 d2 d u v : N) (k : jsstring) (n : Z)
    (st : store) (Hother : v <> u) :
  view v (snd (setUserApiKey d1 d2 u k st)) = view v st /\
  view v (snd (removeUserApiKey u st)) = view v st /\
  view v (updateUserStats d u n st) = view v st.
Proof.
  unfold view, getUserApiKey, hasApiKey, getUserStats, JSMap.has.
  repeat split.
  - destruct (valid_args u k) eqn:V;
      [rewrite (setUserApiKey_valid _ _ _ _ _ V)
      |rewrite (setUserApiKey_invalid _ _ _ _ _ V); reflexivity].
    simpl. rewrite get_set_other by assumption.
    destruct (negb _); [rewrite get_set_other by assumption|]; reflexivity.
  - simpl. rewrite get_delete_other by assumption. reflexivity.
  - unfold updateUserStats.
    destruct (JSMap.get (userStats st) u); [|reflexivity].
    simpl. rewrite get_set_other by assumption. reflexivity.
Qed.

(** X16. [removeUserApiKey] tells whether the user had a key; afterwards the
    user has none, and the statistics of the user are still there. *)
Theorem removeUserApiKey_spec (u : N) (st : store) :
  fst (removeUserApiKey u st) = hasApiKey u st /\
  hasApiKey u (snd (removeUserApiKey u st)) = false /\
  getUserApiKey u (snd (removeUserApiKey u st)) = None /\
  getUserStats u (snd (removeUserApiKey u st)) = getUserStats u st.
Proof.
  unfold hasApiKey, getUserApiKey, getUserStats, JSMap.has. simpl.
  rewrite get_delete_same. auto.
Qed.

(** X17. Storing a key for a new user puts the user last in [getAllUserIds];
    storing one for a user who has a key changes neither the list nor its
    order. *)
Theorem setUserApiKey_ids (d1 d2 u : N) (k : jsstring) (st : store)
    (Hvalid : valid_args u k = true) :
  getAllUserIds (snd (setUserApiKey d1 d2 u k st))
  = (if hasApiKey u st then getAllUserIds st else getAllUserIds st ++ [u]).
Proof.
  rewrite (setUserApiKey_valid _ _ _ _ _ Hvalid).
  unfold getAllUserIds, hasApiKey. simpl.
  destruct (JSMap.has (userApiKeys st) u) eqn:E;
    [apply keys_set_old | apply keys_set_new]; exact E.
Qed.

Lemma reachable_inv (st : store) (Hreach : reachable st) :
  NoDup (getAllUserIds st) /\
  ~ In 0%N (getAllUserIds st) /\
  (forall u k, JSMap.get (userApiKeys st) u = Some k -> trim k = k) /\
  (forall u, hasApiKey u st = true -> getUserStats u st <> None).
Proof.
  unfold getAllUserIds, hasApiKey, getUserStats.
  induction Hreach as [ | d1 d2 u k st _ IH | u st _ IH | d u n st _ IH | st _ _].
  - repeat split; [constructor | intros [] | discriminate | discriminate].
  - destruct IH as (Hnd & H0 & Htrim & Hstats).
    destruct (valid_args u k) eqn:V;
      [rewrite (setUserApiKey_valid _ _ _ _ _ V)
      |rewrite (setUserApiKey_invalid _ _ _ _ _ V); auto].
    simpl. repeat split.
    + apply NoDup_keys_set, Hnd.
    + intros Hin. apply has_in_keys in Hin. unfold JSMap.has in Hin.
      unfold valid_args in V. apply andb_true_iff in V as [V1 _].
      apply negb_true_iff, N.eqb_neq in V1.
      rewrite get_set_other in Hin by congruence.
      apply H0, has_in_keys. exact Hin.
    + intros v kv. destruct (N.eq_dec v u) as [->|Hne].
      * rewrite get_set_same. intros [= <-]. apply trim_idempotent.
      * rewrite get_set_other by assumption. apply Htrim.
    + intros v. unfold JSMap.has. destruct (N.eq_dec v u) as [->|Hne].
      * intros _. destruct (JSMap.get (userStats st) u) eqn:E; simpl.
        -- rewrite E. discriminate.
        -- rewrite get_set_same. discriminate.
      * rewrite get_set_other by assumption. intros Hk.
        specialize (Hstats v Hk).
        destruct (negb _); [rewrite get_set_other by assumption|]; exact Hstats.
  - destruct IH as (Hnd & H0 & Htrim & Hstats). simpl. repeat split.
    + rewrite keys_delete. apply NoDup_filter, Hnd.
    + rewrite keys_delete. intros Hin. apply filter_In in Hin. tauto.
    + intros v kv. destruct (N.eq_dec v u) as [->|Hne].
      * rewrite get_delete_same. discriminate.
      * rewrite get_delete_other by assumption. apply Htrim.
    + intros v. unfold JSMap.has. destruct (N.eq_dec v u) as [->|Hne].
      * rewrite get_delete_same. discriminate.
      * rewrite get_delete_other by assumption. apply Hstats.
  - destruct IH as (Hnd & H0 & Htrim & Hstats).
    unfold updateUserStats.
    destruct (JSMap.get (userStats st) u) eqn:E; [|auto].
    simpl. repeat split; auto.
    intros v Hk. destruct (N.eq_dec v u) as [->|Hne].
    + rewrite get_set_same. discriminate.
    + rewrite get_set_other by assumption. apply Hstats, Hk.
  - repeat split; [constructor | intros [] | discriminate | discriminate].
Qed.

(** X18. What holds of every store the module can be in: no user is listed
    twice, the user id [0] is never stored, the stored keys are trimmed,
    and every user who has a key has statistics. *)
Theorem reachable_invariant (st : store) (Hreach : reachable st) :
  NoDup (getAllUserIds st) /\
  ~ In 0%N (getAllUserIds st) /\
  (forall u k, JSMap.get (userApiKeys st) u = Some k -> trim k = k) /\
  (forall u, hasApiKey u st = true -> getUserStats u st <> None).
Proof. exact (reachable_inv st Hreach). Qed.

Lemma filter_absent (k : N) (l : list N) :
  ~ In k l -> filter (fun j => negb (N.eqb j k)) l = l.
Proof.
  induction l as [|x l IH]; intros H; [reflexivity|].
  simpl. destruct (N.eqb x k) eqn:E.
  - apply N.eqb_eq in E. subst x. elim H. left; reflexivity.
  - simpl. rewrite IH; [reflexivity|]. intros Hin. apply H. right; exact Hin.
Qed.

Lemma size_keys {V} (m : JSMap.t V) : JSMap.size m = length (JSMap.keys m).
Proof. unfold JSMap.size, JSMap.keys. symmetry; apply length_map. Qed.

(** X19. In a store the module can be in, removing the key of a user who has
    one makes [getTotalUsers] one less, and removing for a user who has
    none leaves it as it is. *)
Theorem removeUserApiKey_total (u : N) (st : store) (Hreach : reachable st) :
  getTotalUsers (snd (removeUserApiKey u st))
  + (if hasApiKey u st then 1 else 0)
  = getTotalUsers st.
Proof.
  destruct (reachable_inv st Hreach) as (Hnd & _).
  unfold getTotalUsers, hasApiKey, getAllUserIds in *. simpl.
  rewrite !size_keys, keys_delete.
  destruct (JSMap.has (userApiKeys st) u) eqn:E.
  - apply has_in_keys in E.
    rewrite <- (filter_remove_length u _ Hnd E). lia.
  - rewrite filter_absent; [lia|].
    intros Hin. apply has_in_keys in Hin. congruence.
Qed.

Lemma js_add_safe (a b : Z) :
  safe_integer (a + b) = true -> js_add a b = (a + b)%Z.
Proof.
  unfold js_add, safe_integer, round_to_double.
  generalize (a + b)%Z. intros z Hz.
  destruct (Z.abs z <? 2 ^ 53)%Z eqn:E; [reflexivity|].
  apply Z.leb_le in Hz. apply Z.ltb_ge in E.
  change (2 ^ 53)%Z with 9007199254740992%Z in Hz, E.
  assert (H : z = 9007199254740992%Z \/ z = (-9007199254740992)%Z) by lia.
  destruct H as [-> | ->]; vm_compute; reflexivity.
Qed.

(** Past the safe integers the sum of the code rounds: one more than
    [2^53] is [2^53]. *)
Example js_add_rounds :
  js_add (2 ^ 53) 1 = (2 ^ 53)%Z /\ js_add (2 ^ 53) 3 = (2 ^ 53 + 4)%Z.
Proof. split; vm_compute; reflexivity. Qed.

(** X20. [updateUserStats] adds the count to the total of a user who has
    statistics, keeps the date of first use and sets the date of last use;
    for a user without statistics it does nothing.  It never touches the
    keys.  The total, the count and their sum are integers of at most
    [2^53] in absolute value, for which the sum of the code is exact. *)
Theorem updateUserStats_spec (d u : N) (n : Z) (st : store)
    (Hsafe : match getUserStats u st with
             | Some s =>
                 safe_integer (totalUrlsShortened s) && safe_integer n
                 && safe_integer (totalUrlsShortened s + n)
             | None => true
             end = true) :
  getUserStats u (updateUserStats d u n st)
  = option_map
      (fun s => mkStats (totalUrlsShortened s + n)%Z (firstUse s) d)
      (getUserStats u st) /\
  (getUserStats u st = None -> updateUserStats d u n st = st) /\
  userApiKeys (updateUserStats d u n st) = userApiKeys st.
Proof.
  unfold getUserStats, updateUserStats in *.
  destruct (JSMap.get (userStats st) u) as [s|] eqn:E; simpl.
  - apply andb_true_iff in Hsafe as [_ Hsum].
    rewrite get_set_same, (js_add_safe _ _ Hsum). repeat split. discriminate.
  - rewrite E. auto.
Qed.

(** X21. The statistics of a user outlive the key: after the key is removed
    and a key is stored again, the total and the date of first use are
    what they were; they are initialised only for a user who had none. *)
Theorem stats_survive_new_key (d1 d2 u : N) (k : jsstring) (st : store)
    (Hvalid : valid_args u k = true) :
  getUserStats u
    (snd (setUserApiKey d1 d2 u k (snd (removeUserApiKey u st))))
  = match getUserStats u st with
    | Some s => Some s
    | None => Some (mkStats 0%Z d1 d2)
    end.
Proof.
  rewrite (setUserApiKey_valid _ _ _ _ _ Hvalid).
  unfold getUserStats, JSMap.has. simpl.
  destruct (JSMap.get (userStats st) u) as [s|] eqn:E; simpl.
  - exact E.
  - apply get_set_same.
Qed.

End UserStorageFacts.

Lemma setUserApiKey_roundtrip_witness :
  UserStorage.hasApiKey 42
    (snd (UserStorage.setUserApiKey 1000 1001 42 (js "  my-key ") UserStorage.empty))
  = true /\
  UserStorage.getUserApiKey 42
    (snd (UserStorage.setUserApiKey 1000 1001 42 (js "  my-key ") UserStorage.empty))
  = Some (js "my-key").
Proof.
  apply (UserStorageFacts.setUserApiKey_roundtrip 1000 1001 42 (js "  my-key ")
           UserStorage.empty).
  reflexivity.
Defined.

Lemma other_users_untouched_witness :
  view 8
    (snd (UserStorage.setUserApiKey 3000 3001 7 (js "other") two_users))
  = view 8 two_users /\
  view 8 (snd (UserStorage.removeUserApiKey 7 two_users))
  = view 8 two_users /\
  view 8 (UserStorage.updateUserStats 3000 7 5 two_users)
  = view 8 two_users.
Proof.
  apply (UserStorageFacts.other_users_untouched 3000 3001 3000 7 8 (js "other") 5
           two_users).
  discriminate.
Defined.

Lemma setUserApiKey_ids_witness :
  UserStorage.getAllUserIds
    (snd (UserStorage.setUserApiKey 3000 3001 9 (js "key-9") two_users))
  = [7; 8; 9]%N.
Proof.
  apply (UserStorageFacts.setUserApiKey_ids 3000 3001 9 (js "key-9") two_users).
  reflexivity.
Defined.

Lemma reachable_invariant_witness :
  NoDup (UserStorage.getAllUserIds two_users) /\
  ~ In 0%N (UserStorage.getAllUserIds two_users) /\
  (forall u k, JSMap.get (UserStorage.userApiKeys two_users) u = Some k ->
               trim k = k) /\
  (forall u, UserStorage.hasApiKey u two_users = true ->
             UserStorage.getUserStats u two_users <> None).
Proof.
  apply (UserStorageFacts.reachable_invariant two_users).
  repeat constructor.
Defined.

Lemma removeUserApiKey_total_witness :
  UserStorage.getTotalUsers (snd (UserStorage.removeUserApiKey 7 two_users)) + 1
  = 2.
Proof.
  apply (UserStorageFacts.removeUserApiKey_total 7 two_users).
  repeat constructor.
Defined.

Lemma updateUserStats_spec_witness :
  UserStorage.getUserStats 7 (UserStorage.updateUserStats 3000 7 5 two_users)
  = Some (UserStorage.mkStats 8 1000 3000) /\
  (UserStorage.getUserStats 7 two_users = None ->
   UserStorage.updateUserStats 3000 7 5 two_users = two_users) /\
  UserStorage.userApiKeys (UserStorage.updateUserStats 3000 7 5 two_users)
  = UserStorage.userApiKeys two_users.
Proof.
  apply (UserStorageFacts.updateUserStats_spec 3000 7 5 two_users).
  vm_compute. reflexivity.
Defined.

Lemma stats_survive_new_key_witness :
  UserStorage.getUserStats 7
    (snd (UserStorage.setUserApiKey 3000 3001 7 (js "new-key")
            (snd (UserStorage.removeUserApiKey 7 two_users))))
  = Some (UserStorage.mkStats 3 1000 2000).
Proof.
  apply (UserStorageFacts.stats_survive_new_key 3000 3001 7 (js "new-key")
           two_users).
  reflexivity.
Defined.

(* ================================================================== *)
(** * The handler of incoming messages *)

(** ** The test of the handler and the extraction of the rewriter *)

Module HandlerRegexFacts.
Import Regex.

Lemma covers_class_plus : covers class_plus HandlerRegex.nonspace_plus.
Proof.
  intros s. unfold class_plus, HandlerRegex.nonspace_plus.
  destruct s as [|c s]; simpl; [auto|].
  destruct (in_class c) eqn:E; [|auto].
  rewrite (in_class_not_space _ E). simpl. discriminate.
Qed.

Lemma covers_seq_lit (p : jsstring) (f g : matcher) :
  covers f g -> covers (seq (lit p) f) (seq (lit p) g).
Proof.
  intros H s. unfold seq. destruct (lit p s); [apply H | auto].
Qed.

Lemma covers_alt (f f' g g' : matcher) :
  covers f f' -> covers g g' -> covers (alt f g) (alt f' g').
Proof.
  intros Hf Hg s. unfold alt. specialize (Hf s). specialize (Hg s).
  destruct (f s), (f' s); try discriminate; auto.
  intros _. elim Hf; [discriminate | reflexivity].
Qed.

Lemma covers_urlRegex : covers urlRegex HandlerRegex.urlRegex.
Proof.
  unfold urlRegex, HandlerRegex.urlRegex, opt_then.
  repeat first [apply covers_alt | apply covers_seq_lit
               | apply covers_class_plus].
Qed.

Lemma has_url_test (s : jsstring) :
  has_url s = true -> HandlerRegex.test s = true.
Proof.
  induction s as [|c s IH]; [discriminate|].
  cbn [has_url HandlerRegex.test]. unfold match_at.
  destruct (urlRegex (c :: s)) eqn:E.
  - intros _. pose proof (covers_urlRegex (c :: s)) as H.
    rewrite E in H.
    destruct (HandlerRegex.urlRegex (c :: s)); [reflexivity|].
    elim H; [discriminate | reflexivity].
  - intros H. rewrite (IH H).
    destruct (HandlerRegex.urlRegex (c :: s)); reflexivity.
Qed.

End HandlerRegexFacts.

(** X22. The test of the handler lets through every message in which the
    rewriter finds a URL. *)
Theorem handler_test_covers_extraction (t : jsstring)
    (Hurl : extractUrls (JSString t) <> []) :
  HandlerRegex.test t = true.
Proof.
  apply HandlerRegexFacts.has_url_test.
  destruct (has_url t) eqn:E; [reflexivity|].
  elim Hurl. rewrite extractUrls_string. apply scan_no_url, E.
Qed.

Lemma handler_test_covers_extraction_witness :
  HandlerRegex.test (js "look at www.example.org/page") = true.
Proof.
  apply (handler_test_covers_extraction (js "look at www.example.org/page")).
  vm_compute. discriminate.
Defined.

(** ** What the handler replies *)

Section HandlerFacts.

Variable World : Type.
Variable axios_get : World -> request -> axios_result * World.
Variable db_hasApiKey : World -> N -> outcome bool * World.
Variable db_getUserApiKey : World -> N -> outcome (option jsstring) * World.

Lemma processMessage_string_returns (t apiKey : jsstring) (st : state World) :
  exists p st',
    processMessage axios_get (JSString t) apiKey st
    = (Returned (JSString p), st').
Proof.
  rewrite processMessage_string.
  destruct (Regex.match_all t) as [|u l]; [eauto|].
  destruct (forOf_blocks _ axios_get apiKey (u :: l) t st)
    as (bs & st' & _ & Hrun & _).
  rewrite Hrun. eauto.
Qed.

Lemma onMessage_with_key (msg : message) (t : jsstring) (k : option jsstring)
      (st : state World) (w1 w2 : World) :
  text msg = Some t ->
  is_command (text msg) = false ->
  db_hasApiKey (world st) (from_id msg) = (Returned true, w1) ->
  HandlerRegex.test t = true ->
  db_getUserApiKey w1 (from_id msg) = (Returned k, w2) ->
  exists p st',
    processMessage axios_get (JSString t) (api_param k) (mkState w2 (trace st))
    = (Returned (JSString p), st') /\
    onMessage axios_get db_hasApiKey db_getUserApiKey msg st
    = (Returned [(chat_id msg, reply_for t p)], st').
Proof.
  intros Ht Hc Hhas Htest Hget.
  destruct (processMessage_string_returns t (api_param k) (mkState w2 (trace st)))
    as (p & st' & Hrun).
  exists p, st'. split; [exact Hrun|].
  unfold onMessage. rewrite Hc. unfold bind at 1, query at 1. rewrite Hhas.
  cbn [negb]. rewrite Ht.
  assert (Hne : str_truthy t = true).
  { destruct t; [discriminate Htest | reflexivity]. }
  rewrite Hne, Htest. cbn [negb orb].
  unfold try_catch, bind, query. cbn [world trace]. rewrite Hget, Hrun.
  unfold differs, reply_for. destruct (str_eqb p t); reflexivity.
Qed.

(** X23. The handler sends at most one message, and to the chat the message
    came from; it fails only when the query [hasApiKey] fails. *)
Theorem onMessage_one_reply (msg : message) (st : state World) :
  match fst (onMessage axios_get db_hasApiKey db_getUserApiKey msg st) with
  | Returned out =>
      length out <= 1 /\ Forall (fun o => fst o = chat_id msg) out
  | Thrown e =>
      fst (db_hasApiKey (world st) (from_id msg)) = Thrown e
  end.
Proof.
  unfold onMessage.
  destruct (is_command (text msg)); [simpl; auto|].
  unfold bind at 1, query at 1.
  destruct (db_hasApiKey (world st) (from_id msg)) as [[b|e] w1];
    [|reflexivity].
  destruct b; cbn [negb]; [|simpl; auto].
  destruct (text msg) as [t|]; [|simpl; auto].
  destruct (negb (str_truthy t) || negb (HandlerRegex.test t)); [simpl; auto|].
  unfold try_catch, bind, query. cbn [world trace].
  destruct (db_getUserApiKey w1 (from_id msg)) as [[k|e] w2]; [|simpl; auto].
  destruct (processMessage_string_returns t (api_param k) (mkState w2 (trace st)))
    as (p & st' & ->).
  destruct (differs (JSString p) t); simpl; auto.
Qed.

(** X24. A user without a key gets the request to set one, whatever was sent
    that is not a command (a message without text too), and the rewriter
    is not called: the trace is as before. *)
Theorem onMessage_no_key (msg : message) (st : state World) (w1 : World)
    (Hcmd : is_command (text msg) = false)
    (Hkey : db_hasApiKey (world st) (from_id msg) = (Returned false, w1)) :
  onMessage axios_get db_hasApiKey db_getUserApiKey msg st
  = (Returned [(chat_id msg, NEED_KEY_TEXT)], mkState w1 (trace st)).
Proof.
  unfold onMessage. rewrite Hcmd. unfold bind, query. rewrite Hkey.
  reflexivity.
Qed.

(** X25. For a user with a key and a text that passes the test, the handler
    calls the rewriter with the stored key and sends exactly one reply:
    the rewritten text when it differs from the text, and otherwise the
    report that nothing could be shortened. *)
Theorem onMessage_reply (msg : message) (t : jsstring) (k : option jsstring)
    (st : state World) (w1 w2 : World)
    (Htext : text msg = Some t)
    (Hcmd : is_command (text msg) = false)
    (Hkey : db_hasApiKey (world st) (from_id msg) = (Returned true, w1))
    (Htest : HandlerRegex.test t = true)
    (Hget : db_getUserApiKey w1 (from_id msg) = (Returned k, w2)) :
  exists p st',
    processMessage axios_get (JSString t) (api_param k) (mkState w2 (trace st))
    = (Returned (JSString p), st') /\
    onMessage axios_get db_hasApiKey db_getUserApiKey msg st
    = (Returned [(chat_id msg, if str_eqb p t then NONE_SHORTENED_TEXT else p)],
       st').
Proof. exact (onMessage_with_key msg t k st w1 w2 Htext Hcmd Hkey Htest Hget). Qed.

(** X26. A text that passes the test of the handler and in which the rewriter
    finds no URL (a scheme followed by a delimiter, say) is answered with
    the report that nothing could be shortened; no request is issued. *)
Theorem onMessage_no_url_found (msg : message) (t : jsstring)
    (k : option jsstring) (st : state World) (w1 w2 : World)
    (Htext : text msg = Some t)
    (Hcmd : is_command (text msg) = false)
    (Hkey : db_hasApiKey (world st) (from_id msg) = (Returned true, w1))
    (Htest : HandlerRegex.test t = true)
    (Hget : db_getUserApiKey w1 (from_id msg) = (Returned k, w2))
    (Hnone : extractUrls (JSString t) = []) :
  onMessage axios_get db_hasApiKey db_getUserApiKey msg st
  = (Returned [(chat_id msg, NONE_SHORTENED_TEXT)], mkState w2 (trace st)).
Proof.
  destruct (onMessage_with_key msg t k st w1 w2 Htext Hcmd Hkey Htest Hget)
    as (p & st' & Hrun & ->).
  rewrite processMessage_string in Hrun. rewrite extractUrls_string in Hnone.
  rewrite Hnone in Hrun. injection Hrun as <- <-.
  unfold reply_for. rewrite str_eqb_refl. reflexivity.
Qed.

(** X27. A text whose URLs all hold the marker [linkara.xyz] in their text
    (the test of the code for a link that is already shortened, which
    minds the case) is answered with the report that nothing could be
    shortened, and no request is issued: the trace gains the skips only. *)
Theorem onMessage_only_service_links (msg : message) (t : jsstring)
    (k : option jsstring) (st : state World) (w1 w2 : World)
    (Htext : text msg = Some t)
    (Hcmd : is_command (text msg) = false)
    (Hkey : db_hasApiKey (world st) (from_id msg) = (Returned true, w1))
    (Hget : db_getUserApiKey w1 (from_id msg) = (Returned k, w2))
    (Hurl : extractUrls (JSString t) <> [])
    (Hmarked : forallb (fun u => includes u service_marker)
                 (extractUrls (JSString t)) = true) :
  onMessage axios_get db_hasApiKey db_getUserApiKey msg st
  = (Returned [(chat_id msg, NONE_SHORTENED_TEXT)],
     mkState w2 (trace st ++ map EvSkip (extractUrls (JSString t)))).
Proof.
  assert (Htest : HandlerRegex.test t = true).
  { apply HandlerRegexFacts.has_url_test.
    destruct (has_url t) eqn:E; [reflexivity|].
    elim Hurl. rewrite extractUrls_string. apply scan_no_url, E. }
  destruct (onMessage_with_key msg t k st w1 w2 Htext Hcmd Hkey Htest Hget)
    as (p & st' & Hrun & ->).
  rewrite extractUrls_string in *.
  pose proof (RegexFacts.scan_tokens t 0) as Htok.
  fold (Regex.match_all t) in Htok.
  rewrite processMessage_string in Hrun.
  destruct (Regex.match_all t) as [|u l] eqn:E; [congruence|].
  rewrite forOf_all_skipped in Hrun.
  - rewrite <- (map_map trim EvSkip), (map_trim_tokens _ Htok) in Hrun.
    injection Hrun as <- <-. unfold reply_for. rewrite str_eqb_refl.
    reflexivity.
  - rewrite forallb_forall in *. intros x Hx.
    rewrite Forall_forall in Htok. rewrite (trim_token _ (Htok _ Hx)).
    apply Hmarked, Hx.
Qed.

End HandlerFacts.

Lemma onMessage_no_key_witness :
  onMessage always_answers_s1 (db_has false) (db_key None)
    (mkMessage 5 7 None) st0
  = (Returned [(5%N, NEED_KEY_TEXT)], st0).
Proof.
  apply (onMessage_no_key unit always_answers_s1 (db_has false) (db_key None)
           (mkMessage 5 7 None) st0 tt); reflexivity.
Defined.

Lemma onMessage_reply_witness :
  exists p st',
    processMessage always_answers_s1 (JSString (js "read http://foo.com now"))
      (api_param (Some (js "KEY"))) (mkState tt (trace st0))
    = (Returned (JSString p), st') /\
    onMessage always_answers_s1 (db_has true) (db_key (Some (js "KEY")))
      (mkMessage 5 7 (Some (js "read http://foo.com now"))) st0
    = (Returned [(5%N, if str_eqb p (js "read http://foo.com now")
                       then NONE_SHORTENED_TEXT else p)], st').
Proof.
  apply (onMessage_reply unit always_answers_s1 (db_has true)
           (db_key (Some (js "KEY")))
           (mkMessage 5 7 (Some (js "read http://foo.com now")))
           (js "read http://foo.com now") (Some (js "KEY")) st0 tt tt);
    reflexivity.
Defined.

Lemma onMessage_no_url_found_witness :
  onMessage always_answers_s1 (db_has true) (db_key (Some (js "KEY")))
    (mkMessage 5 7 (Some (js "the scheme is http://<host>"))) st0
  = (Returned [(5%N, NONE_SHORTENED_TEXT)], st0).
Proof.
  apply (onMessage_no_url_found unit always_answers_s1 (db_has true)
           (db_key (Some (js "KEY")))
           (mkMessage 5 7 (Some (js "the scheme is http://<host>")))
           (js "the scheme is http://<host>") (Some (js "KEY")) st0 tt tt);
    reflexivity.
Defined.

Lemma onMessage_only_service_links_witness :
  onMessage always_answers_s1 (db_has true) (db_key (Some (js "KEY")))
    (mkMessage 5 7 (Some (js "mine: https://linkara.xyz/abc"))) st0
  = (Returned [(5%N, NONE_SHORTENED_TEXT)],
     mkState tt [EvSkip (js "https://linkara.xyz/abc")]).
Proof.
  apply (onMessage_only_service_links unit always_answers_s1 (db_has true)
           (db_key (Some (js "KEY")))
           (mkMessage 5 7 (Some (js "mine: https://linkara.xyz/abc")))
           (js "mine: https://linkara.xyz/abc") (Some (js "KEY")) st0 tt tt);
    try reflexivity.
  vm_compute. discriminate.
Defined.
